(** * Verification of the offside-check geometry and interaction core

    Shallow embedding of [src/lib/geometry.ts], [src/lib/colors.ts], the
    interaction hook [useCanvasInteraction] (its [clampPan],
    [addPointAtImageCoords] and [commitDrag] callbacks) and the
    [handleDeleteLine] handler of [src/app/page.tsx].

    JavaScript numbers are modelled by exact rationals [Q]; the tolerances of
    the source (1e-10, 0.5, 0.2, ...) are the corresponding rationals. *)

From Stdlib Require Import QArith Qabs Qround List String Bool Lia Lqa.
Import ListNotations.
Open Scope Q_scope.

(** ** Data model ([src/types/index.ts]) *)

Record Point := mkPoint { x : Q; y : Q }.

Record Line := mkLine { p1 : Point; p2 : Point }.

(** Point equality up to rational equality ([Qeq]) of the coordinates. *)
Definition peq (a b : Point) : Prop := x a == x b /\ y a == y b.

(** ** Number helpers with the semantics of the JavaScript operators *)

(** [a < b] on numbers. *)
Definition Qltb (a b : Q) : bool := negb (Qle_bool b a).

(** [a >= b] on numbers. *)
Definition Qgeb (a b : Q) : bool := Qle_bool b a.

(** [Math.max(a, b)] and [Math.min(a, b)]. *)
Definition js_max (a b : Q) : Q := if Qltb a b then b else a.
Definition js_min (a b : Q) : Q := if Qltb b a then b else a.

(** The tolerance [1e-10] of [geometry.ts]. *)
Definition eps : Q := 1 # 10000000000.

Module Geometry.

(** [imageToScreen(p, scale, offset)] *)
Definition imageToScreen (p : Point) (scale : Q) (offset : Point) : Point :=
  {| x := x p * scale + x offset; y := y p * scale + y offset |}.

(** [screenToImage(screenPoint, scale, offset)] *)
Definition screenToImage (screenPoint : Point) (scale : Q) (offset : Point) : Point :=
  {| x := (x screenPoint - x offset) / scale;
     y := (y screenPoint - y offset) / scale |}.

(** [lineIntersection(a, b)]: [None] stands for [null]. *)
Definition lineIntersection (a b : Line) : option Point :=
  let x1 := x (p1 a) in let y1 := y (p1 a) in
  let x2 := x (p2 a) in let y2 := y (p2 a) in
  let x3 := x (p1 b) in let y3 := y (p1 b) in
  let x4 := x (p2 b) in let y4 := y (p2 b) in
  let denom := (x1 - x2) * (y3 - y4) - (y1 - y2) * (x3 - x4) in
  if Qltb (Qabs denom) eps then None (* Lines are parallel *)
  else
    let t := ((x1 - x3) * (y3 - y4) - (y1 - y3) * (x3 - x4)) / denom in
    Some {| x := x1 + t * (x2 - x1); y := y1 + t * (y2 - y1) |}.

(** [computePanForZoomAroundPoint(...)] *)
Definition computePanForZoomAroundPoint (focalScreenPoint : Point) (newZoom baseScale : Q)
    (baseOffset canvasCenter : Point) (oldEffScale : Q) (oldEffOffset : Point) : Point :=
  let imgX := (x focalScreenPoint - x oldEffOffset) / oldEffScale in
  let imgY := (y focalScreenPoint - y oldEffOffset) / oldEffScale in
  let newEffScale := baseScale * newZoom in
  let basePart := x baseOffset * newZoom + x canvasCenter * (1 - newZoom) in
  let panX := x focalScreenPoint - imgX * newEffScale - basePart in
  let basePartY := y baseOffset * newZoom + y canvasCenter * (1 - newZoom) in
  let panY := y focalScreenPoint - imgY * newEffScale - basePartY in
  {| x := panX; y := panY |}.


(** The candidate crossings of the line through [p1], [p2] with the four
    edges of the (expanded) bounding rectangle, in the order the source
    pushes them onto [intersections]. *)
Definition boundaryCrossings (p1 p2 : Point) (width height : Q) : list Point :=
  let dx := x p2 - x p1 in
  let dy := y p2 - y p1 in
  let inY (yy : Q) := Qgeb yy (- height) && Qle_bool yy (2 * height) in
  let inX (xx : Q) := Qgeb xx (- width) && Qle_bool xx (2 * width) in
  (* Left edge (x = 0) *)
  (if Qltb eps (Qabs dx) then
     let t := (0 - x p1) / dx in
     let yy := y p1 + t * dy in
     if inY yy then [{| x := 0; y := yy |}] else []
   else []) ++
  (* Right edge (x = width) *)
  (if Qltb eps (Qabs dx) then
     let t := (width - x p1) / dx in
     let yy := y p1 + t * dy in
     if inY yy then [{| x := width; y := yy |}] else []
   else []) ++
  (* Top edge (y = 0) *)
  (if Qltb eps (Qabs dy) then
     let t := (0 - y p1) / dy in
     let xx := x p1 + t * dx in
     if inX xx then [{| x := xx; y := 0 |}] else []
   else []) ++
  (* Bottom edge (y = height) *)
  (if Qltb eps (Qabs dy) then
     let t := (height - y p1) / dy in
     let xx := x p1 + t * dx in
     if inX xx then [{| x := xx; y := height |}] else []
   else []).

(** Two crossings closer than 0.5 on both axes count as the same. *)
Definition nearDuplicate (u pt : Point) : bool :=
  Qltb (Qabs (x u - x pt)) (1 # 2) && Qltb (Qabs (y u - y pt)) (1 # 2).

(** The loop building [unique]: [pt] is pushed unless [unique.some(...)]. *)
Definition dedupe (intersections : list Point) : list Point :=
  fold_left (fun unique pt =>
               if existsb (fun u => nearDuplicate u pt) unique then unique
               else unique ++ [pt])
            intersections [].

(** The fallback: extend 10,000 units each way along [p1 -> p2]. *)
Definition farExtension (p1 p2 : Point) : Point * Point :=
  let dx := x p2 - x p1 in
  let dy := y p2 - y p1 in
  ({| x := x p1 - dx * 10000; y := y p1 - dy * 10000 |},
   {| x := x p1 + dx * 10000; y := y p1 + dy * 10000 |}).

(** [extendLineToBounds(p1, p2, width, height)] *)
Definition extendLineToBounds (p1 p2 : Point) (width height : Q) : Point * Point :=
  let dx := x p2 - x p1 in
  let dy := y p2 - y p1 in
  if Qltb (Qabs dx) eps && Qltb (Qabs dy) eps then (p1, p2)
  else
    match dedupe (boundaryCrossings p1 p2 width height) with
    | u0 :: u1 :: _ => (u0, u1)
    | _ => farExtension p1 p2
    end.

End Geometry.


(** ** View transform state ([useCanvasInteraction]) *)

Module View.

(** The base layout kept in [layoutRef]. *)
Record Layout := mkLayout {
  scale : Q; offset : Point; canvasWidth : Q; canvasHeight : Q }.

(** The loaded raster image: only its pixel size matters here. *)
Record Image := mkImage { width : Q; height : Q }.

(** The zoom/pan state kept in [viewRef]. *)
Record ViewState := mkView { zoom : Q; pan : Point }.

(** [computeLayout()] once the canvas container measures [cw] x [ch]
    (fit-to-container, centred). *)
Definition computeLayout (cw ch : Q) (image : Image) : Layout :=
  let scaleX := cw / width image in
  let scaleY := ch / height image in
  let s := js_min scaleX scaleY in
  let offsetX := (cw - width image * s) / 2 in
  let offsetY := (ch - height image * s) / 2 in
  {| scale := s; offset := {| x := offsetX; y := offsetY |};
     canvasWidth := cw; canvasHeight := ch |}.

(** The effective offset [baseOffset * zoom + center * (1 - zoom) + pan]. *)
Definition effOffset (baseOffset center : Point) (z : Q) (p : Point) : Point :=
  {| x := x baseOffset * z + x center * (1 - z) + x p;
     y := y baseOffset * z + y center * (1 - z) + y p |}.

(** [getEffectiveTransform()]: the effective scale and offset. *)
Definition getEffectiveTransform (layout : Layout) (view : ViewState) : Q * Point :=
  let centerX := canvasWidth layout / 2 in
  let centerY := canvasHeight layout / 2 in
  (scale layout * zoom view,
   effOffset (offset layout) {| x := centerX; y := centerY |} (zoom view) (pan view)).

(** [clampPan(pan, zoom)]; [image = None] is the [!image] early return. *)
Definition clampPan (layout : Layout) (image : option Image) (p : Point) (z : Q) : Point :=
  match image with
  | None => p
  | Some img =>
      let baseScale := scale layout in
      let imgW := width img * baseScale * z in
      let imgH := height img * baseScale * z in
      let margin := 2 # 10 in
      let centerX := canvasWidth layout / 2 in
      let centerY := canvasHeight layout / 2 in
      let baseOffset := offset layout in
      let naturalX := x baseOffset * z + centerX * (1 - z) in
      let naturalY := y baseOffset * z + centerY * (1 - z) in
      let minPanX := - (naturalX + imgW - canvasWidth layout * margin) in
      let maxPanX := canvasWidth layout * (1 - margin) - naturalX in
      let minPanY := - (naturalY + imgH - canvasHeight layout * margin) in
      let maxPanY := canvasHeight layout * (1 - margin) - naturalY in
      {| x := js_min (js_max (x p) minPanX) maxPanX;
         y := js_min (js_max (y p) minPanY) maxPanY |}
  end.

End View.

(** ** Ray colours ([src/lib/colors.ts]) *)

Module Colors.

Definition OFFSIDE_COLORS : list string :=
  [ "#FF4444"; (* red *)
    "#44FF44"; (* green *)
    "#FFFF44"; (* yellow *)
    "#FF8844"; (* orange *)
    "#44FFFF"; (* cyan *)
    "#FF44FF"; (* magenta *)
    "#88FF44"; (* lime *)
    "#4488FF"; (* blue *)
    "#FF4488"; (* pink *)
    "#44FF88"; (* mint *)
    "#FFAA44"; (* amber *)
    "#AA44FF"  (* purple *) ]%string.

(** [getOffsideColor(index)] for the non-negative ray counts it receives;
    the index [index % 12] is always in range, so the default of [nth] is
    never used. *)
Definition getOffsideColor (index : nat) : string :=
  nth (Nat.modulo index (List.length OFFSIDE_COLORS)) OFFSIDE_COLORS ""%string.

End Colors.

(** ** Interaction controller ([addPointAtImageCoords], [commitDrag],
    [handleDeleteLine]) *)

Module Interaction.

Import Geometry Colors.

(** [AppMode]: "upload" | "calibration" | "offside". *)
Inductive AppMode := Upload | Calibration | Offside.

Record CalibrationState := mkCalibration {
  points : list Point; line1 : option Line; line2 : option Line }.

Record OffsideLine := mkOffsideLine {
  id : string; throughPoint : Point; color : string }.

Inductive DraggablePointSource :=
| SrcCalibration (index : nat)
| SrcOffside (lineId : string).

Record DragState := mkDrag {
  source : DraggablePointSource; originalPoint : Point; currentPoint : Point }.

(** The React state cells of [page.tsx] that the controller reads and sets. *)
Record AppState := mkState {
  mode : AppMode;
  calibration : CalibrationState;
  vanishingPoint : option Point;
  offsideLines : list OffsideLine;
  parallelError : bool }.

(** [INITIAL_CALIBRATION] *)
Definition INITIAL_CALIBRATION : CalibrationState := mkCalibration [] None None.

(** [handleResetCalibration()] *)
Definition handleResetCalibration (s : AppState) : AppState :=
  mkState Calibration INITIAL_CALIBRATION None [] false.

(** The effect of the [if (line1 && line2)] block shared by both callbacks:
    on success the vanishing point is set and the error cleared (and, when
    [advance] is set, the mode becomes "offside"); on failure only the error
    flag is set. *)
Definition recomputeVanishingPoint (advance : bool) (l1 l2 : option Line) (s : AppState)
  : AppState :=
  match l1, l2 with
  | Some a, Some b =>
      match lineIntersection a b with
      | Some vp =>
          {| mode := if advance then Offside else mode s; calibration := calibration s;
             vanishingPoint := Some vp; offsideLines := offsideLines s;
             parallelError := false |}
      | None =>
          {| mode := mode s; calibration := calibration s;
             vanishingPoint := vanishingPoint s; offsideLines := offsideLines s;
             parallelError := true |}
      end
  | _, _ => s
  end.

Definition setCalibration (c : CalibrationState) (s : AppState) : AppState :=
  {| mode := mode s; calibration := c; vanishingPoint := vanishingPoint s;
     offsideLines := offsideLines s; parallelError := parallelError s |}.

Definition setOffsideLines (ls : list OffsideLine) (s : AppState) : AppState :=
  {| mode := mode s; calibration := calibration s; vanishingPoint := vanishingPoint s;
     offsideLines := ls; parallelError := parallelError s |}.

(** [addPointAtImageCoords(imagePoint)]; [uuid] is the value
    [crypto.randomUUID()] returns for this call. *)
Definition addPointAtImageCoords (s : AppState) (uuid : string) (imagePoint : Point)
  : AppState :=
  match mode s with
  | Calibration =>
      let prev := calibration s in
      let newPoints := points prev ++ [imagePoint] in
      let line1 :=
        match newPoints with
        | [a; b] => Some (mkLine a b)
        | _ => line1 prev
        end in
      let '(line2, s1) :=
        match newPoints with
        | [_; _; c; d] =>
            let l2 := Some (mkLine c d) in
            (l2, recomputeVanishingPoint true line1 l2 s)
        | _ => (line2 prev, s)
        end in
      if Nat.ltb 4 (List.length newPoints) then setCalibration prev s1
      else setCalibration (mkCalibration newPoints line1 line2) s1
  | Offside =>
      match vanishingPoint s with
      | Some _ =>
          let newLine := {| id := uuid; throughPoint := imagePoint;
                            color := getOffsideColor (List.length (offsideLines s)) |} in
          setOffsideLines (offsideLines s ++ [newLine]) s
      | None => s
      end
  | Upload => s
  end.

(** [newPoints[idx] = p] for the indices [hitTestPoints] produces, which
    are always below [points.length]; beyond the end the source would
    create a sparse array, which a [list Point] does not represent, and the
    list is left as it is. *)
Fixpoint set_index (l : list Point) (idx : nat) (p : Point) : list Point :=
  match l, idx with
  | [], _ => []
  | _ :: rest, O => p :: rest
  | q :: rest, S i => q :: set_index rest i p
  end.

(** [commitDrag(drag)] *)
Definition commitDrag (s : AppState) (drag : DragState) : AppState :=
  match source drag with
  | SrcCalibration idx =>
      let prev := calibration s in
      let newPoints := set_index (points prev) idx (currentPoint drag) in
      let line1 :=
        match newPoints with
        | a :: b :: _ => Some (mkLine a b)
        | _ => line1 prev
        end in
      let line2 :=
        match newPoints with
        | _ :: _ :: c :: d :: _ => Some (mkLine c d)
        | _ => line2 prev
        end in
      let s1 := recomputeVanishingPoint false line1 line2 s in
      setCalibration (mkCalibration newPoints line1 line2) s1
  | SrcOffside lineId =>
      setOffsideLines
        (map (fun l => if String.eqb (id l) lineId
                       then {| id := id l; throughPoint := currentPoint drag;
                               color := color l |}
                       else l) (offsideLines s)) s
  end.

(** [handleDeleteLine(id)] on the ray collection. *)
Definition handleDeleteLine (lineId : string) (ls : list OffsideLine) : list OffsideLine :=
  filter (fun l => negb (String.eqb (id l) lineId)) ls.

End Interaction.

(** ** Zoom operations of [useCanvasInteraction] *)

Module Zoom.

Import Geometry View.

Definition MIN_ZOOM : Q := 1.
Definition MAX_ZOOM : Q := 5.
Definition WHEEL_ZOOM_IN : Q := 11 # 10.
Definition WHEEL_ZOOM_OUT : Q := 1 / WHEEL_ZOOM_IN.
Definition BUTTON_ZOOM_FACTOR : Q := 5 # 4.

(** [newZoom === oldZoom] on numbers. *)
Definition Qeqb (a b : Q) : bool := Qeq_bool a b.

(** The canvas centre [{ x: canvasWidth / 2, y: canvasHeight / 2 }]. *)
Definition canvasCenter (layout : Layout) : Point :=
  {| x := canvasWidth layout / 2; y := canvasHeight layout / 2 |}.

(** The pan the zoom handlers compute: [computePanForZoomAroundPoint] with
    the base layout and the current effective transform. *)
Definition panForZoom (layout : Layout) (view : ViewState) (focal : Point) (newZoom : Q)
  : Point :=
  let '(oldEffScale, oldEffOffset) := getEffectiveTransform layout view in
  computePanForZoomAroundPoint focal newZoom (scale layout) (offset layout)
    (canvasCenter layout) oldEffScale oldEffOffset.

(** [viewRef.current = { zoom: newZoom, pan: clampPan(newPan, newZoom) }] *)
Definition zoomAroundPoint (layout : Layout) (image : option Image) (view : ViewState)
    (focal : Point) (newZoom : Q) : ViewState :=
  {| zoom := newZoom;
     pan := clampPan layout image (panForZoom layout view focal newZoom) newZoom |}.

(** The target zoom of one wheel notch. *)
Definition wheelTargetZoom (oldZoom deltaY : Q) : Q :=
  let factor := if Qltb deltaY 0 then WHEEL_ZOOM_IN else WHEEL_ZOOM_OUT in
  js_min MAX_ZOOM (js_max MIN_ZOOM (oldZoom * factor)).

(** [handleWheel(e)] at canvas-relative position [screenPt]. *)
Definition handleWheel (layout : Layout) (image : option Image) (view : ViewState)
    (screenPt : Point) (deltaY : Q) : ViewState :=
  let newZoom := wheelTargetZoom (zoom view) deltaY in
  if Qeqb newZoom (zoom view) then view
  else zoomAroundPoint layout image view screenPt newZoom.

Definition zoomInTarget (oldZoom : Q) : Q := js_min MAX_ZOOM (oldZoom * BUTTON_ZOOM_FACTOR).
Definition zoomOutTarget (oldZoom : Q) : Q := js_max MIN_ZOOM (oldZoom / BUTTON_ZOOM_FACTOR).

(** [zoomIn()] *)
Definition zoomIn (layout : Layout) (image : option Image) (view : ViewState) : ViewState :=
  let newZoom := zoomInTarget (zoom view) in
  if Qeqb newZoom (zoom view) then view
  else zoomAroundPoint layout image view (canvasCenter layout) newZoom.

(** [zoomOut()] *)
Definition zoomOut (layout : Layout) (image : option Image) (view : ViewState) : ViewState :=
  let newZoom := zoomOutTarget (zoom view) in
  if Qeqb newZoom (zoom view) then view
  else zoomAroundPoint layout image view (canvasCenter layout) newZoom.

(** [resetView()] *)
Definition resetView : ViewState := {| zoom := 1; pan := {| x := 0; y := 0 |} |}.

(** The state kept in [pinchRef] when two fingers touch down. *)
Record PinchState := mkPinch {
  initialDistance : Q; initialMidpoint : Point; initialZoom : Q; initialPan : Point }.

Definition pinchTargetZoom (pinch : PinchState) (dist : Q) : Q :=
  let ratio := dist / initialDistance pinch in
  js_min MAX_ZOOM (js_max MIN_ZOOM (initialZoom pinch * ratio)).

(** The pinch branch of [handleCanvasTouchMove]: [dist] is
    [Math.hypot(t1.x - t0.x, t1.y - t0.y)] and [mid] the midpoint of the two
    touches. *)
Definition pinchMove (layout : Layout) (image : option Image) (pinch : PinchState)
    (dist : Q) (mid : Point) : ViewState :=
  let newZoom := pinchTargetZoom pinch dist in
  let baseScale := scale layout in
  let baseOffset := offset layout in
  let center := canvasCenter layout in
  let initEffScale := baseScale * initialZoom pinch in
  let initEffOffX := x baseOffset * initialZoom pinch + x center * (1 - initialZoom pinch)
                     + x (initialPan pinch) in
  let initEffOffY := y baseOffset * initialZoom pinch + y center * (1 - initialZoom pinch)
                     + y (initialPan pinch) in
  let newPan := computePanForZoomAroundPoint mid newZoom baseScale baseOffset center
                  initEffScale {| x := initEffOffX; y := initEffOffY |} in
  let midDelta := {| x := x mid - x (initialMidpoint pinch);
                     y := y mid - y (initialMidpoint pinch) |} in
  let adjustedPan := {| x := x newPan + x midDelta; y := y newPan + y midDelta |} in
  {| zoom := newZoom; pan := clampPan layout image adjustedPan newZoom |}.

End Zoom.

(** ** Hit testing of [useCanvasInteraction] *)

Module HitTest.

Import Geometry View Interaction.

Definition HIT_RADIUS : Q := 24.

(** [Math.hypot(dx, dy)] is only compared with [HIT_RADIUS] or with an
    earlier [Math.hypot]; all of them are nonnegative, so the loops compare
    squared distances and keep [bestDist] squared. *)
Definition dist2 (a b : Point) : Q :=
  (x a - x b) * (x a - x b) + (y a - y b) * (y a - y b).

Definition HitAcc : Type := (Q * option DraggablePointSource)%type.

(** One iteration of the [offsideLinesRef.current] loop. *)
Definition offsideStep (scale : Q) (offset screenPt : Point) (acc : HitAcc)
    (line : OffsideLine) : HitAcc :=
  let sp := imageToScreen (throughPoint line) scale offset in
  let dist := dist2 sp screenPt in
  if Qltb dist (fst acc) then (dist, Some (SrcOffside (id line))) else acc.

(** [for (let i = i0 - 1; i >= 0; i--)] over the calibration points. *)
Fixpoint calibrationLoop (scale : Q) (offset screenPt : Point) (calPts : list Point)
    (i0 : nat) (acc : HitAcc) : HitAcc :=
  match i0 with
  | O => acc
  | S i =>
      let sp := imageToScreen (nth i calPts (mkPoint 0 0)) scale offset in
      let dist := dist2 sp screenPt in
      calibrationLoop scale offset screenPt calPts i
        (if Qltb dist (fst acc) then (dist, Some (SrcCalibration i)) else acc)
  end.

(** [hitTestPoints(screenPt)] over the rays [offsideLines] and the
    calibration points [calPts]. *)
Definition hitTestPoints (layout : Layout) (view : ViewState)
    (offsideLines : list OffsideLine) (calPts : list Point) (screenPt : Point)
  : option DraggablePointSource :=
  let '(scale, offset) := getEffectiveTransform layout view in
  let acc := fold_left (offsideStep scale offset screenPt) offsideLines
               (HIT_RADIUS * HIT_RADIUS, None) in
  snd (calibrationLoop scale offset screenPt calPts (List.length calPts) acc).

(** The squared screen distance from [screenPt] to where image point [p] is
    drawn. *)
Definition screenDist2 (layout : Layout) (view : ViewState) (screenPt p : Point) : Q :=
  let E := getEffectiveTransform layout view in
  dist2 (imageToScreen p (fst E) (snd E)) screenPt.

End HitTest.

(** ** Touch gesture state machine of [useCanvasInteraction] *)

Module Touch.

Import Geometry View Interaction Zoom HitTest.

Definition DRAG_THRESHOLD : Q := 8.
Definition TAP_MAX_DURATION : Q := 300.

(** [GestureType]: "none" | "tap" | "drag" | "pinch" | "pan". *)
Inductive GestureType := GNone | GTap | GDrag | GPinch | GPan.

(** [PendingTouch]; its [initialPan] is named [pendingInitialPan] here to
    keep it apart from the field of the pinch state. *)
Record PendingTouch := mkPendingTouch {
  screenPoint : Point; imagePoint : Point; hitTarget : option DraggablePointSource;
  timestamp : Q; gesture : GestureType; pendingInitialPan : Point }.

(** [pending.gesture = g] (the object is mutated in place). *)
Definition setGesture (p : PendingTouch) (g : GestureType) : PendingTouch :=
  mkPendingTouch (screenPoint p) (imagePoint p) (hitTarget p) (timestamp p) g
    (pendingInitialPan p).

(** What the touch handlers read and write: [pendingTouchRef], [pinchRef],
    the [activeDrag] state, [viewRef] and the page state reached through
    [addPointAtImageCoords] and [commitDrag] (the hook's refs
    [calibrationRef] and [offsideLinesRef] mirror it). *)
Record TouchState := mkTouchState {
  pendingTouch : option PendingTouch; pinch : option PinchState;
  activeDrag : option DragState; view : ViewState; app : AppState }.

Section Handlers.

(** [Math.hypot] on the vector between two fingers. *)
Variable hypot : Q -> Q -> Q.
(** [layoutRef.current] and the loaded image. *)
Variable layout : Layout.
Variable image : option Image.

(** [getImagePointFromScreen(screenPt)] *)
Definition getImagePointFromScreen (v : ViewState) (screenPt : Point) : Point :=
  let E := getEffectiveTransform layout v in
  screenToImage screenPt (fst E) (snd E).

(** [dist] and [mid] of the first two touches (canvas-relative). *)
Definition twoFingers (t0 t1 : Point) : Q * Point :=
  (hypot (x t1 - x t0) (y t1 - y t0),
   {| x := (x t0 + x t1) / 2; y := (y t0 + y t1) / 2 |}).

(** [handleCanvasTouchStart(e)]; [touches] are the canvas-relative
    positions of [e.touches] and [now] is [Date.now()].  A touchstart
    always lists at least the new touch, so [[]] does not occur. *)
Definition handleCanvasTouchStart (st : TouchState) (touches : list Point) (now : Q)
  : TouchState :=
  match touches with
  | t0 :: t1 :: _ =>
      let '(dist, mid) := twoFingers t0 t1 in
      let v := view st in
      let pr := mkPinch dist mid (zoom v) (pan v) in
      let pending :=
        match pendingTouch st with
        | Some p => setGesture p GPinch
        | None => mkPendingTouch mid (getImagePointFromScreen v mid) None now GPinch (pan v)
        end in
      mkTouchState (Some pending) (Some pr) None v (app st)
  | [t0] =>
      let v := view st in
      let a := app st in
      let imagePt := getImagePointFromScreen v t0 in
      let hit := hitTestPoints layout v (offsideLines a) (points (calibration a)) t0 in
      mkTouchState (Some (mkPendingTouch t0 imagePt hit now GNone (pan v)))
        (pinch st) (activeDrag st) v a
  | [] => st
  end.

(** [handleCanvasTouchMove(e)].  [Math.hypot(dx, dy) > DRAG_THRESHOLD] is
    compared on squares.  In the suppressed case the source returns right
    after setting "pinch"; neither later branch applies to "pinch", so the
    result is the same. *)
Definition handleCanvasTouchMove (st : TouchState) (touches : list Point) : TouchState :=
  match pendingTouch st with
  | None => st
  | Some p =>
      match touches, pinch st with
      | t0 :: t1 :: _, Some pr =>
          let '(dist, mid) := twoFingers t0 t1 in
          mkTouchState (Some (setGesture p GPinch)) (pinch st) None
            (pinchMove layout image pr dist mid) (app st)
      | _ :: _ :: _, None =>
          mkTouchState (Some (setGesture p GPinch)) (pinch st) None (view st) (app st)
      | [currentScreen], _ =>
          match gesture p with
          | GPinch => st
          | g0 =>
              let g :=
                match g0 with
                | GNone =>
                    if Qltb (DRAG_THRESHOLD * DRAG_THRESHOLD)
                            (dist2 currentScreen (screenPoint p)) then
                      match hitTarget p with
                      | Some _ => GDrag
                      | None => if Qltb 1 (zoom (view st)) then GPan else GPinch
                      end
                    else GNone
                | _ => g0
                end in
              let p' := setGesture p g in
              match g, hitTarget p with
              | GPan, _ =>
                  let newPan := {| x := x (pendingInitialPan p) + (x currentScreen - x (screenPoint p));
                                   y := y (pendingInitialPan p) + (y currentScreen - y (screenPoint p)) |} in
                  mkTouchState (Some p') (pinch st) (activeDrag st)
                    {| zoom := zoom (view st);
                       pan := clampPan layout image newPan (zoom (view st)) |} (app st)
              | GDrag, Some src =>
                  let dragState := mkDrag src (imagePoint p)
                                     (getImagePointFromScreen (view st) currentScreen) in
                  mkTouchState (Some p') (pinch st) (Some dragState) (view st) (app st)
              | _, _ => mkTouchState (Some p') (pinch st) (activeDrag st) (view st) (app st)
              end
          end
      | [], _ => st
      end
  end.

End Handlers.

(** [handleCanvasTouchEnd(e)]; [remaining] is [e.touches.length], [now] is
    [Date.now()] and [uuid] what [crypto.randomUUID()] returns if a ray is
    added.  [activeDrag] is the value of the render after the last move. *)
Definition handleCanvasTouchEnd (st : TouchState) (remaining : nat) (now : Q) (uuid : string)
  : TouchState :=
  match pendingTouch st with
  | None => st
  | Some p =>
      if Nat.ltb 0 remaining then st
      else
        let dragSnapshot := activeDrag st in
        let a :=
          match gesture p, dragSnapshot with
          | GPinch, _ | GPan, _ => app st
          | GDrag, Some d => commitDrag (app st) d
          | GNone, _ =>
              if Qltb (now - timestamp p) TAP_MAX_DURATION then
                match hitTarget p with
                | None => addPointAtImageCoords (app st) uuid (imagePoint p)
                | Some _ => app st
                end
              else app st
          | _, _ => app st
          end in
        mkTouchState None None None (view st) a
  end.

(** One finger down at [sp] at time [t0], moved through [moves], lifted at
    time [t1]. *)
Definition singleFingerTouch (hypot : Q -> Q -> Q) (layout : Layout) (image : option Image)
    (st : TouchState) (sp : Point) (t0 : Q) (moves : list Point) (t1 : Q) (uuid : string)
  : TouchState :=
  handleCanvasTouchEnd
    (fold_left (fun s m => handleCanvasTouchMove hypot layout image s [m]) moves
       (handleCanvasTouchStart hypot layout st [sp] t0)) 0 t1 uuid.

End Touch.

(** A point lies on the infinite line through [p1 l] and [p2 l]
    (two-point line equation, cross product form). *)
Definition on_line (l : Line) (v : Point) : Prop :=
  (x v - x (p1 l)) * (y (p2 l) - y (p1 l)) == (y v - y (p1 l)) * (x (p2 l) - x (p1 l)).

(** ** Page-level handlers of [src/app/page.tsx] *)

Module Page.

Import Geometry Interaction.

(** [handleImageLoad(img)]: the image itself is kept outside [AppState]. *)
Definition handleImageLoad (s : AppState) : AppState :=
  mkState Calibration INITIAL_CALIBRATION None [] false.

(** [handleClearOffsideLines()] *)
Definition handleClearOffsideLines (s : AppState) : AppState := setOffsideLines [] s.

(** [handleResetAll()] *)
Definition handleResetAll (s : AppState) : AppState :=
  mkState Upload INITIAL_CALIBRATION None [] false.

(** The initial values of the [useState] cells of [Home]. *)
Definition initialState : AppState := mkState Upload INITIAL_CALIBRATION None [] false.

(** The state changes the page receives: its own handlers and the two
    callbacks of the canvas hook that set the calibration and the rays. *)
Inductive PageEvent :=
| ImageLoad
| ResetCalibration
| ClearOffsideLines
| ResetAll
| DeleteLine (lineId : string)
| AddPoint (uuid : string) (imagePoint : Point)
| CommitDrag (drag : DragState).

Definition pageStep (s : AppState) (e : PageEvent) : AppState :=
  match e with
  | ImageLoad => handleImageLoad s
  | ResetCalibration => handleResetCalibration s
  | ClearOffsideLines => handleClearOffsideLines s
  | ResetAll => handleResetAll s
  | DeleteLine lineId => setOffsideLines (handleDeleteLine lineId (offsideLines s)) s
  | AddPoint uuid p => addPointAtImageCoords s uuid p
  | CommitDrag d => commitDrag s d
  end.

(** Drags come from [hitTestPoints], whose calibration indices are below
    [points.length]. *)
Definition dragInRange (s : AppState) (d : DragState) : bool :=
  match source d with
  | SrcCalibration i => Nat.ltb i (List.length (points (calibration s)))
  | SrcOffside _ => true
  end.

Fixpoint runPage (s : AppState) (es : list PageEvent) : option AppState :=
  match es with
  | [] => Some s
  | e :: rest =>
      match e with
      | CommitDrag d => if dragInRange s d then runPage (pageStep s e) rest else None
      | _ => runPage (pageStep s e) rest
      end
  end.

End Page.

(** ** Share creation ([src/lib/share.ts]) and its API route
    ([src/app/api/share/route.ts]) *)

Module Share.

Import Interaction.

Local Open Scope string_scope.

(** A value as [JSON.parse] returns it; an object's keys are distinct. *)
#[warnings="-register-all"]
Inductive json :=
| JNull
| JBool (b : bool)
| JNum (n : Q)
| JStr (s : string)
| JArr (items : list json)
| JObj (fields : list (string * json)).

Fixpoint lookup (fields : list (string * json)) (k : string) : option json :=
  match fields with
  | [] => None
  | (k', v) :: rest => if String.eqb k' k then Some v else lookup rest k
  end.

(** [v.k] on a value that is not [null]/[undefined]; [None] is [undefined].
    Arrays, strings, numbers and booleans have none of the properties read
    here. *)
Definition get (v : option json) (k : string) : option json :=
  match v with
  | Some (JObj fs) => lookup fs k
  | _ => None
  end.

(** [typeof v === "object" && v !== null] *)
Definition isObject (v : option json) : bool :=
  match v with
  | Some (JObj _) | Some (JArr _) => true
  | _ => false
  end.

Definition isNumber (v : option json) : bool :=
  match v with Some (JNum _) => true | _ => false end.

Definition isString (v : option json) : bool :=
  match v with Some (JStr _) => true | _ => false end.

(** JavaScript truthiness ([!v] is its negation). *)
Definition truthy (v : option json) : bool :=
  match v with
  | None | Some JNull => false
  | Some (JBool b) => b
  | Some (JNum n) => negb (Qeq_bool n 0)
  | Some (JStr s) => negb (String.eqb s EmptyString)
  | Some (JArr _) | Some (JObj _) => true
  end.

(** [isValidPoint(p)] *)
Definition isValidPoint (p : option json) : bool :=
  isObject p && isNumber (get p "x") && isNumber (get p "y").

(** Returning a boolean, or throwing (reading [line.id] of a [null]). *)
Inductive Outcome := Ret (b : bool) | Throw.

(** The test on one entry of [d.offsideLines] (on a non-[null] entry). *)
Definition lineValid (line : json) : bool :=
  isString (get (Some line) "id") && isString (get (Some line) "color")
  && isValidPoint (get (Some line) "throughPoint").

(** The [for (const line of d.offsideLines)] loop; [line.id] of a [null]
    entry throws. *)
Fixpoint checkLines (lines : list json) : Outcome :=
  match lines with
  | [] => Ret true
  | JNull :: _ => Throw
  | line :: rest => if negb (lineValid line) then Ret false else checkLines rest
  end.

(** The test on [d.calibration]. *)
Definition calibrationOk (calibration : option json) : bool :=
  truthy calibration &&
  match get calibration "points" with
  | Some (JArr pts) =>
      Nat.eqb (List.length pts) 4 && forallb (fun p => isValidPoint (Some p)) pts
  | _ => false
  end.

(** [isValidMetadata(data)] *)
Definition isValidMetadata (data : json) : Outcome :=
  let d := Some data in
  if negb (isObject d) then Ret false else
  if negb (calibrationOk (get d "calibration")) then Ret false else
  if negb (isValidPoint (get d "vanishingPoint")) then Ret false else
  match get d "offsideLines" with
  | Some (JArr lines) =>
      match checkLines lines with
      | Ret true =>
          if negb (isNumber (get d "imageWidth")) || negb (isNumber (get d "imageHeight"))
          then Ret false else Ret true
      | o => o
      end
  | _ => Ret false
  end.

Definition MAX_IMAGE_SIZE : Q := 1024 * 1024.

Inductive Response :=
| OkResponse (id url : string)
| BadRequest (error : string)
| ServerError (error : string).

(** [POST(request)]: [image] is the size of the uploaded file ([None]: no
    file), [metadataStr] the metadata field, [parse] stands for
    [JSON.parse] ([None]: it throws), [id] is what [nanoid(10)] returns and
    [uploadsOk] whether both [put] calls succeed. *)
Definition POST (parse : string -> option json) (image : option Q)
    (metadataStr : option string) (id : string) (uploadsOk : bool) : Response :=
  match image, metadataStr with
  | Some size, Some m =>
      if String.eqb m EmptyString then BadRequest "Missing image or metadata"
      else if Qltb MAX_IMAGE_SIZE size then BadRequest "Image exceeds 1MB limit"
      else
        match parse m with
        | None => BadRequest "Invalid metadata JSON"
        | Some metadata =>
            match isValidMetadata metadata with
            | Throw => ServerError "Failed to create share"
            | Ret false => BadRequest "Invalid metadata structure"
            | Ret true =>
                if uploadsOk then OkResponse id ("/share/" ++ id)
                else ServerError "Failed to create share"
            end
        end
  | _, _ => BadRequest "Missing image or metadata"
  end.

(** [scalePoint(point, scale)] *)
Definition scalePoint (point : Point) (scale : Q) : Point :=
  {| x := x point * scale; y := y point * scale |}.

(** [Math.round] *)
Definition round (q : Q) : Q := inject_Z (Qfloor (q + (1 # 2))).

Definition MAX_SIZE_BYTES : Q := 1 * 1024 * 1024.
Definition INITIAL_MAX_DIMENSION : Q := 2048.
Definition INITIAL_QUALITY : Q := 75 # 100.
Definition MIN_QUALITY : Q := 3 # 10.
Definition DIMENSION_STEP : Q := 75 # 100.

(** What [compressImage] resolves to: the blob's size and the scale, or the
    error thrown when [toBlob] yields [null]. *)
Inductive CompressResult :=
| Compressed (blobSize scale : Q)
| CompressFailed
| OutOfFuel.

(** The [while (true)] loop of [compressImage(image)], run for at most [fuel]
    iterations; [toBlob width height quality] is the size of the JPEG blob of
    the canvas ([None]: [null]). *)
Fixpoint compressLoop (toBlob : Q -> Q -> Q -> option Q) (imageWidth imageHeight : Q)
    (fuel : nat) (maxDim quality : Q) : CompressResult :=
  match fuel with
  | O => OutOfFuel
  | S fuel' =>
      let '(width, height, scale) :=
        if Qltb maxDim imageWidth || Qltb maxDim imageHeight then
          let scale := maxDim / js_max imageWidth imageHeight in
          (round (imageWidth * scale), round (imageHeight * scale), scale)
        else (imageWidth, imageHeight, 1) in
      match toBlob width height quality with
      | None => CompressFailed
      | Some blobSize =>
          if Qle_bool blobSize MAX_SIZE_BYTES then Compressed blobSize scale
          else if Qltb MIN_QUALITY quality then
            compressLoop toBlob imageWidth imageHeight fuel' maxDim
              (js_max MIN_QUALITY (quality - (15 # 100)))
          else
            compressLoop toBlob imageWidth imageHeight fuel'
              (round (maxDim * DIMENSION_STEP)) quality
      end
  end.

Definition compressImage (toBlob : Q -> Q -> Q -> option Q) (imageWidth imageHeight : Q)
    (fuel : nat) : CompressResult :=
  compressLoop toBlob imageWidth imageHeight fuel INITIAL_MAX_DIMENSION INITIAL_QUALITY.


Definition pointJson (p : Point) : json := JObj [("x", JNum (x p)); ("y", JNum (y p))].

Definition lineJson (l : OffsideLine) : json :=
  JObj [("id", JStr (id l)); ("throughPoint", pointJson (throughPoint l));
        ("color", JStr (color l))].

(** The [metadata] object [createShare] sends, as the server parses it back
    from [JSON.stringify(metadata)]; [scale] is what [compressImage]
    returned and [imageWidth], [imageHeight] the image's size. *)
Definition shareMetadata (calibration : CalibrationState) (vanishingPoint : Point)
    (offsideLines : list OffsideLine) (imageWidth imageHeight scale : Q) : json :=
  let scaledPoints := map (fun p => scalePoint p scale) (points calibration) in
  let scaledVanishingPoint := scalePoint vanishingPoint scale in
  let scaledOffsideLines :=
    map (fun line => {| id := id line; throughPoint := scalePoint (throughPoint line) scale;
                        color := color line |}) offsideLines in
  JObj [("calibration", JObj [("points", JArr (map pointJson scaledPoints))]);
        ("vanishingPoint", pointJson scaledVanishingPoint);
        ("offsideLines", JArr (map lineJson scaledOffsideLines));
        ("imageWidth", JNum (round (imageWidth * scale)));
        ("imageHeight", JNum (round (imageHeight * scale)))].

End Share.

(** Sample share metadata. *)

Module ShareExamples.

Import Interaction Share.

Local Open Scope string_scope.

Definition sampleCalibration : CalibrationState :=
  mkCalibration [mkPoint 0 0; mkPoint 10 10; mkPoint 0 10; mkPoint 10 0] None None.

(** Metadata as [createShare] sends it for [sampleCalibration]. *)
Definition sampleShareMetadata : json :=
  shareMetadata sampleCalibration (mkPoint 5 5)
    [mkOffsideLine "l1" (mkPoint 1 2) "#ff0000"] 1920 1080 (1 # 2).

(** The same with a [null] entry in [offsideLines]. *)
Definition nullLineMetadata : json :=
  JObj [("calibration", JObj [("points", JArr (map pointJson (points sampleCalibration)))]);
        ("vanishingPoint", pointJson (mkPoint 5 5));
        ("offsideLines", JArr [lineJson (mkOffsideLine "l1" (mkPoint 1 2) "#ff0000"); JNull]);
        ("imageWidth", JNum 960); ("imageHeight", JNum 540)].

End ShareExamples.

Import Geometry View Colors Interaction Zoom HitTest Touch Page Share ShareExamples.

(** The state right after an image load or a calibration reset. *)
Definition calibrationStart : AppState :=
  mkState Calibration INITIAL_CALIBRATION None [] false.

(** Four successive add-point intents with the same image-point source. *)
Definition addFour (s : AppState) (uuid : string) (a b c d : Point) : AppState :=
  addPointAtImageCoords
    (addPointAtImageCoords
       (addPointAtImageCoords (addPointAtImageCoords s uuid a) uuid b) uuid c) uuid d.

(** The state reached by the §8 calibration flow, and the drag of point 0
    from [(0,0)] to [(0,2)] after it. *)
Definition calibratedState : AppState :=
  addFour calibrationStart "u" (mkPoint 0 0) (mkPoint 10 10) (mkPoint 0 10) (mkPoint 10 0).

Definition dragPoint0 : DragState :=
  mkDrag (SrcCalibration 0) (mkPoint 0 0) (mkPoint 0 2).

(** Three rays created one after the other. *)
Definition threeRays : list OffsideLine :=
  [mkOffsideLine "a" (mkPoint 1 1) (getOffsideColor 0);
   mkOffsideLine "b" (mkPoint 2 2) (getOffsideColor 1);
   mkOffsideLine "c" (mkPoint 3 3) (getOffsideColor 2)].


(** The image point under [focal] before a zoom step, and where the view
    after the step draws it. *)
Definition anchoredAfter (layout : Layout) (before after : ViewState) (focal : Point) : Point :=
  let E := getEffectiveTransform layout before in
  let E' := getEffectiveTransform layout after in
  imageToScreen (screenToImage focal (fst E) (snd E)) (fst E') (snd E').

(** The view a pinch starts from. *)
Definition pinchStartView (pinch : PinchState) : ViewState :=
  {| zoom := initialZoom pinch; pan := initialPan pinch |}.

(** What a one-finger touch keeps while it moves: the recorded start,
    the page state and the zoom; the gesture is "none" exactly while no move
    has gone beyond [DRAG_THRESHOLD], and a "drag" carries a drag state for
    the hit target. *)
Definition touchInv (sp ip : Point) (h : option DraggablePointSource) (t0 : Q) (a : AppState)
    (z : Q) (within : bool) (s : TouchState) : Prop :=
  exists p, pendingTouch s = Some p /\ screenPoint p = sp /\ imagePoint p = ip /\
    hitTarget p = h /\ timestamp p = t0 /\ app s = a /\ zoom (view s) = z /\
    (gesture p = GNone <-> within = true) /\
    (gesture p = GDrag ->
     exists src d, h = Some src /\ activeDrag s = Some d /\ source d = src /\
                   originalPoint d = ip) /\
    gesture p <> GTap.

(** The lines a calibration point list determines. *)
Definition linesOf (pts : list Point) : option Line * option Line :=
  (match pts with a :: b :: _ => Some (mkLine a b) | _ => None end,
   match pts with _ :: _ :: c :: d :: _ => Some (mkLine c d) | _ => None end).

Definition pageInv (s : AppState) : Prop :=
  let c := calibration s in
  (List.length (points c) <= 4)%nat /\
  (line1 c, line2 c) = linesOf (points c) /\
  (vanishingPoint s <> None -> List.length (points c) = 4%nat) /\
  (mode s = Offside -> vanishingPoint s <> None) /\
  (offsideLines s <> [] -> mode s = Offside) /\
  (forall v, vanishingPoint s = Some v -> parallelError s = false ->
     exists l1 l2, line1 c = Some l1 /\ line2 c = Some l2 /\ lineIntersection l1 l2 = Some v).

(** A point on one of the lines the rectangle's edges lie on. *)
Definition onRectEdgeLine (width height : Q) (q : Point) : Prop :=
  x q == 0 \/ x q == width \/ y q == 0 \/ y q == height.

Definition dedupeStep (unique : list Point) (pt : Point) : list Point :=
  if existsb (fun u => nearDuplicate u pt) unique then unique else unique ++ [pt].

Definition firstTwoApart (unique : list Point) : Prop :=
  match unique with
  | u0 :: u1 :: _ => nearDuplicate u0 u1 = false
  | _ => True
  end.

Example lineIntersection_known :
  option_map (fun v => (Qred (x v), Qred (y v)))
    (lineIntersection (mkLine (mkPoint 0 0) (mkPoint 10 10))
                      (mkLine (mkPoint 0 10) (mkPoint 10 0))) = Some (5, 5).
Proof. reflexivity. Qed.

Example lineIntersection_parallel :
  lineIntersection (mkLine (mkPoint 0 0) (mkPoint 10 0))
                   (mkLine (mkPoint 0 5) (mkPoint 10 5)) = None.
Proof. reflexivity. Qed.

(** ** Lemmas on the number helpers *)

Lemma Qltb_true a b : Qltb a b = true <-> a < b.
Proof.
  unfold Qltb. rewrite negb_true_iff. split; intro H.
  - apply Qnot_le_lt. intro H'. apply Qle_bool_iff in H'. congruence.
  - destruct (Qle_bool b a) eqn:E; [|reflexivity].
    apply Qle_bool_iff in E. exfalso. apply (Qlt_not_le a b); assumption.
Qed.

Lemma Qltb_false a b : Qltb a b = false <-> b <= a.
Proof.
  unfold Qltb. rewrite negb_false_iff. apply Qle_bool_iff.
Qed.

(** Turn every [Qltb] test of the goal into a case with its order fact. *)
Ltac case_Qltb :=
  repeat match goal with
  | |- context [Qltb ?a ?b] =>
      let E := fresh "E" in
      destruct (Qltb a b) eqn:E;
      [apply Qltb_true in E | apply Qltb_false in E]; cbv iota beta in *
  | H : context [Qltb ?a ?b] |- _ =>
      let E := fresh "E" in
      destruct (Qltb a b) eqn:E;
      [apply Qltb_true in E | apply Qltb_false in E]; cbv iota beta in *
  end.

Lemma Qinv_2 : / 2 = 1 # 2.
Proof. reflexivity. Qed.

(** [Math.min(Math.max(v, lo), hi)] is idempotent, whatever the order of
    [lo] and [hi]. *)
Lemma clamp_idem (v lo hi : Q) :
  js_min (js_max (js_min (js_max v lo) hi) lo) hi = js_min (js_max v lo) hi.
Proof.
  unfold js_min, js_max. case_Qltb; try reflexivity; lra.
Qed.

(** Inside [lo, hi], the clamp returns its argument. *)
Lemma clamp_inside (v lo hi : Q) :
  lo <= v -> v <= hi -> js_min (js_max v lo) hi = v.
Proof.
  intros H1 H2. unfold js_min, js_max. case_Qltb; try reflexivity; lra.
Qed.

Lemma Qabs_ge_nonzero q : ~ (Qabs q < eps) -> ~ q == 0.
Proof.
  intros H E. apply H. rewrite E. reflexivity.
Qed.

(** ** Lemmas on [set_index] *)

Lemma set_index_length (l : list Point) (i : nat) (p : Point) :
  List.length (set_index l i p) = List.length l.
Proof.
  revert i; induction l as [| q l IH]; intros [| i]; cbn; try rewrite IH; reflexivity.
Qed.

Lemma set_index_nth_error_same (l : list Point) (i : nat) (p : Point) :
  (i < List.length l)%nat -> nth_error (set_index l i p) i = Some p.
Proof.
  revert i; induction l as [| q l IH]; intros [| i] Hi; cbn in *; try lia; auto.
  apply IH; lia.
Qed.

Lemma set_index_nth_error_other (l : list Point) (i j : nat) (p : Point) :
  j <> i -> nth_error (set_index l i p) j = nth_error l j.
Proof.
  revert i j; induction l as [| q l IH]; intros [| i] [| j] Hij; cbn;
    first [reflexivity | lia | apply IH; lia].
Qed.

(** ** Frame lemmas of [recomputeVanishingPoint] *)

Lemma recompute_mode (l1 l2 : option Line) (s : AppState) :
  mode (recomputeVanishingPoint false l1 l2 s) = mode s.
Proof.
  unfold recomputeVanishingPoint.
  destruct l1, l2; try reflexivity. destruct (lineIntersection _ _); reflexivity.
Qed.

Lemma recompute_offsideLines (adv : bool) (l1 l2 : option Line) (s : AppState) :
  offsideLines (recomputeVanishingPoint adv l1 l2 s) = offsideLines s.
Proof.
  unfold recomputeVanishingPoint.
  destruct l1, l2; try reflexivity. destruct (lineIntersection _ _); reflexivity.
Qed.

Lemma recompute_calibration (adv : bool) (l1 l2 : option Line) (s : AppState) :
  calibration (recomputeVanishingPoint adv l1 l2 s) = calibration s.
Proof.
  unfold recomputeVanishingPoint.
  destruct l1, l2; try reflexivity. destruct (lineIntersection _ _); reflexivity.
Qed.

(** ** Lemmas on [handleDeleteLine] *)

Lemma handleDeleteLine_keep_all (rid : string) (rays : list OffsideLine) :
  (forall l, In l rays -> id l <> rid) -> handleDeleteLine rid rays = rays.
Proof.
  unfold handleDeleteLine.
  induction rays as [| r rays IH]; intros H; cbn; [reflexivity |].
  destruct (String.eqb (id r) rid) eqn:E.
  - apply String.eqb_eq in E. exfalso. apply (H r); [left; reflexivity | exact E].
  - cbn. f_equal. apply IH. intros l Hl. apply H. right. exact Hl.
Qed.

Lemma handleDeleteLine_cons (rid : string) (r : OffsideLine) (rays : list OffsideLine) :
  handleDeleteLine rid (r :: rays) =
    if String.eqb (id r) rid then handleDeleteLine rid rays
    else r :: handleDeleteLine rid rays.
Proof. unfold handleDeleteLine; cbn. destruct (String.eqb (id r) rid); reflexivity. Qed.

Lemma handleDeleteLine_at (rays : list OffsideLine) (i : nat) (r : OffsideLine) :
  NoDup (map id rays) -> nth_error rays i = Some r ->
  handleDeleteLine (id r) rays = firstn i rays ++ skipn (S i) rays.
Proof.
  revert i; induction rays as [| r0 rays IH]; intros [| i] Hnd Hi; cbn in Hi;
    try discriminate Hi.
  - injection Hi as <-. rewrite handleDeleteLine_cons, String.eqb_refl. cbn.
    apply handleDeleteLine_keep_all.
    intros l Hl E. inversion Hnd as [| ? ? Hnotin _]. apply Hnotin.
    rewrite <- E. apply in_map. exact Hl.
  - inversion Hnd as [| ? ? Hnotin Hnd']; subst.
    rewrite handleDeleteLine_cons.
    destruct (String.eqb (id r0) (id r)) eqn:E.
    + apply String.eqb_eq in E. exfalso. apply Hnotin. rewrite E.
      apply in_map. apply nth_error_In with i. exact Hi.
    + cbn. f_equal. apply IH; assumption.
Qed.

(** ** Theorems *)

(** C7: for every point [p], every [scale > 0] and every offset,
    [screenToImage(imageToScreen(p, scale, offset), scale, offset)] equals [p]
    exactly (over exact arithmetic). *)
Theorem screenToImage_imageToScreen (p : Point) (scale : Q) (offset : Point)
  (Hscale : 0 < scale) :
  peq (screenToImage (imageToScreen p scale offset) scale offset) p.
Proof.
  unfold peq, screenToImage, imageToScreen; simpl.
  assert (Hs : ~ scale == 0) by (intro E; rewrite E in Hscale; discriminate).
  split; field; exact Hs.
Qed.

Lemma screenToImage_imageToScreen_witness :
  0 < 3 # 2 /\
  peq (screenToImage (imageToScreen (mkPoint 7 (-2)) (3 # 2) (mkPoint 10 20)) (3 # 2)
         (mkPoint 10 20)) (mkPoint 7 (-2)).
Proof.
  split; [reflexivity |].
  apply (screenToImage_imageToScreen (mkPoint 7 (-2)) (3 # 2) (mkPoint 10 20)).
  reflexivity.
Defined.

(** C10: whenever [lineIntersection a b] returns a point, that point lies on
    both infinite input lines, exactly. *)
Theorem lineIntersection_on_both (a b : Line) (v : Point)
  (Hv : lineIntersection a b = Some v) :
  on_line a v /\ on_line b v.
Proof.
  destruct a as [[x1 y1] [x2 y2]], b as [[x3 y3] [x4 y4]].
  cbv beta zeta delta [lineIntersection] in Hv; cbn [x y p1 p2] in Hv.
  destruct (Qltb (Qabs ((x1 - x2) * (y3 - y4) - (y1 - y2) * (x3 - x4))) eps) eqn:E;
    [discriminate |].
  inversion Hv; subst v; clear Hv.
  apply Qltb_false in E.
  assert (Hd : ~ (x1 - x2) * (y3 - y4) - (y1 - y2) * (x3 - x4) == 0).
  { apply Qabs_ge_nonzero. apply Qle_not_lt. exact E. }
  unfold on_line; simpl; split; field; exact Hd.
Qed.

Lemma lineIntersection_on_both_witness :
  match lineIntersection (mkLine (mkPoint 0 0) (mkPoint 10 10))
                         (mkLine (mkPoint 0 10) (mkPoint 10 0)) with
  | Some v => on_line (mkLine (mkPoint 0 0) (mkPoint 10 10)) v /\
              on_line (mkLine (mkPoint 0 10) (mkPoint 10 0)) v
  | None => False
  end.
Proof.
  destruct (lineIntersection (mkLine (mkPoint 0 0) (mkPoint 10 10))
                             (mkLine (mkPoint 0 10) (mkPoint 10 0))) as [v |] eqn:E.
  - exact (lineIntersection_on_both _ _ v E).
  - vm_compute in E. discriminate E.
Defined.

(** C6: zoom anchoring.  Let [img] be the image point under the focal screen
    point for the old effective transform (nonzero scale).  With the pan
    returned by [computePanForZoomAroundPoint], the new effective transform
    (scale [baseScale * newZoom], offset
    [baseOffset * newZoom + canvasCenter * (1 - newZoom) + pan]) maps [img]
    back to the focal screen point, exactly; this holds for every new zoom,
    in particular for zoom ratios in [0.2, 5]. *)
Theorem computePanForZoomAroundPoint_anchors (focal : Point) (newZoom baseScale : Q)
  (baseOffset canvasCenter : Point) (oldEffScale : Q) (oldEffOffset : Point)
  (Hscale : ~ oldEffScale == 0) :
  let img := screenToImage focal oldEffScale oldEffOffset in
  let p := computePanForZoomAroundPoint focal newZoom baseScale baseOffset canvasCenter
             oldEffScale oldEffOffset in
  peq (imageToScreen img oldEffScale oldEffOffset) focal /\
  peq (imageToScreen img (baseScale * newZoom) (effOffset baseOffset canvasCenter newZoom p))
      focal.
Proof.
  cbv zeta. unfold peq, imageToScreen, screenToImage, computePanForZoomAroundPoint, effOffset.
  cbn [x y]. repeat split; field; exact Hscale.
Qed.

Lemma computePanForZoomAroundPoint_anchors_witness :
  ~ (3 # 2) == 0 /\
  (let img := screenToImage (mkPoint 40 30) (3 # 2) (mkPoint 5 (-7)) in
   let p := computePanForZoomAroundPoint (mkPoint 40 30) 2 (1 # 2) (mkPoint 10 0)
              (mkPoint 50 25) (3 # 2) (mkPoint 5 (-7)) in
   peq (imageToScreen img (3 # 2) (mkPoint 5 (-7))) (mkPoint 40 30) /\
   peq (imageToScreen img ((1 # 2) * 2) (effOffset (mkPoint 10 0) (mkPoint 50 25) 2 p))
       (mkPoint 40 30)).
Proof.
  assert (H : ~ (3 # 2) == 0) by (intro E; vm_compute in E; discriminate E).
  split; [exact H |].
  exact (computePanForZoomAroundPoint_anchors (mkPoint 40 30) 2 (1 # 2) (mkPoint 10 0)
           (mkPoint 50 25) (3 # 2) (mkPoint 5 (-7)) H).
Defined.

(** C8: the pan clamp is idempotent: for every layout, image, candidate pan
    [p] and zoom [z], [clampPan(clampPan(p, z), z) = clampPan(p, z)]. *)
Theorem clampPan_idempotent (layout : Layout) (image : option Image) (p : Point) (z : Q) :
  clampPan layout image (clampPan layout image p z) z = clampPan layout image p z.
Proof.
  destruct image as [img |]; [| reflexivity].
  unfold clampPan; cbn [x y]. f_equal; apply clamp_idem.
Qed.

(** C4 (as stated, refuted): at zoom 1 the clamp does not force the pan to
    [{0,0}].  For a 100x100 image fitted in a 100x100 canvas, the candidate
    pan [(10,10)] is returned unchanged. *)
Lemma clampPan_zoom1_not_zero :
  ~ peq (clampPan (computeLayout 100 100 (mkImage 100 100)) (Some (mkImage 100 100))
           (mkPoint 10 10) 1)
        (mkPoint 0 0).
Proof.
  intros [Hx _]. vm_compute in Hx. discriminate Hx.
Qed.

Lemma js_min_nonneg (a b : Q) : 0 <= a -> 0 <= b -> 0 <= js_min a b.
Proof. intros Ha Hb. unfold js_min. case_Qltb; assumption. Qed.

Lemma div_nonneg (a b : Q) : 0 <= a -> 0 < b -> 0 <= a / b.
Proof.
  intros Ha Hb. apply Qle_shift_div_l; [exact Hb |]. rewrite Qmult_0_l. exact Ha.
Qed.

(** C4 (amended): at zoom 1, for the fit-to-container layout computed by
    [computeLayout], [clampPan] leaves unchanged every pan whose coordinates
    lie within [0.3 * canvasWidth + imgW / 2] (resp.
    [0.3 * canvasHeight + imgH / 2]) of 0, where [imgW = image.width * scale]:
    it keeps at least 20% of the image visible rather than forcing the pan
    to [{0,0}]; in particular [{0,0}] itself is returned unchanged. *)
Theorem clampPan_zoom1_fit (cw ch : Q) (img : Image)
  (Hcw : 0 <= cw) (Hch : 0 <= ch) (Hw : 0 < width img) (Hh : 0 < height img) :
  let layout := computeLayout cw ch img in
  (forall p : Point,
     - ((3 # 10) * cw + width img * scale layout / 2) <= x p <=
       (3 # 10) * cw + width img * scale layout / 2 ->
     - ((3 # 10) * ch + height img * scale layout / 2) <= y p <=
       (3 # 10) * ch + height img * scale layout / 2 ->
     clampPan layout (Some img) p 1 = p) /\
  clampPan layout (Some img) (mkPoint 0 0) 1 = mkPoint 0 0.
Proof.
  cbv zeta.
  assert (Hgen : forall p : Point,
     - ((3 # 10) * cw + width img * scale (computeLayout cw ch img) / 2) <= x p <=
       (3 # 10) * cw + width img * scale (computeLayout cw ch img) / 2 ->
     - ((3 # 10) * ch + height img * scale (computeLayout cw ch img) / 2) <= y p <=
       (3 # 10) * ch + height img * scale (computeLayout cw ch img) / 2 ->
     clampPan (computeLayout cw ch img) (Some img) p 1 = p).
  { intros [px py] [Hx1 Hx2] [Hy1 Hy2].
    unfold clampPan, computeLayout in *; cbn [x y scale offset canvasWidth canvasHeight] in *.
    set (s := js_min (cw / width img) (ch / height img)) in *.
    unfold Qdiv in *; rewrite Qinv_2 in *. f_equal; apply clamp_inside; lra. }
  split; [exact Hgen |].
  assert (Hs : 0 <= scale (computeLayout cw ch img)).
  { unfold computeLayout; cbn [scale].
    apply js_min_nonneg; apply div_nonneg; assumption. }
  assert (Hws : 0 <= width img * scale (computeLayout cw ch img)).
  { apply Qmult_le_0_compat; [apply Qlt_le_weak |]; assumption. }
  assert (Hhs : 0 <= height img * scale (computeLayout cw ch img)).
  { apply Qmult_le_0_compat; [apply Qlt_le_weak |]; assumption. }
  apply Hgen; cbn [x y]; unfold Qdiv in *; rewrite Qinv_2 in *; split; lra.
Qed.

Lemma clampPan_zoom1_fit_witness :
  0 <= 1280 /\ 0 <= 720 /\ 0 < 1920 /\ 0 < 1080 /\
  clampPan (computeLayout 1280 720 (mkImage 1920 1080)) (Some (mkImage 1920 1080))
    (mkPoint 0 0) 1 = mkPoint 0 0.
Proof.
  assert (H1 : 0 <= 1280) by (vm_compute; discriminate).
  assert (H2 : 0 <= 720) by (vm_compute; discriminate).
  assert (H3 : 0 < 1920) by reflexivity.
  assert (H4 : 0 < 1080) by reflexivity.
  split; [exact H1 |]. split; [exact H2 |]. split; [exact H3 |]. split; [exact H4 |].
  exact (proj2 (clampPan_zoom1_fit 1280 720 (mkImage 1920 1080) H1 H2 H3 H4)).
Defined.

(** C3 (as stated, refuted): a degenerate direction does not take the
    10,000-unit fallback.  For [p1 = (0,0)], [p2 = (1e-11, 0)] the early
    return yields [(p1, p2)], which differs from the far extension
    [((-1e-7, 0), (1e-7, 0))]. *)
Lemma extendLineToBounds_degenerate_not_fallback :
  let q1 := mkPoint 0 0 in
  let q2 := mkPoint (1 # 100000000000) 0 in
  extendLineToBounds q1 q2 100 100 = (q1, q2) /\
  ~ (peq (fst (extendLineToBounds q1 q2 100 100)) (fst (farExtension q1 q2)) /\
     peq (snd (extendLineToBounds q1 q2 100 100)) (snd (farExtension q1 q2))).
Proof.
  cbv zeta. split; [reflexivity |].
  intros [[Hx _] _]. vm_compute in Hx. discriminate Hx.
Qed.

(** C3 (amended): a degenerate direction ([|dx| < 1e-10] and
    [|dy| < 1e-10]) returns the input pair [(p1, p2)] unchanged; otherwise,
    whenever fewer than two boundary crossings survive deduplication, the
    result is the 10,000-unit extension in each direction along
    [p1 -> p2]. *)
Theorem extendLineToBounds_fallback (q1 q2 : Point) (w h : Q) :
  (Qabs (x q2 - x q1) < eps -> Qabs (y q2 - y q1) < eps ->
   extendLineToBounds q1 q2 w h = (q1, q2)) /\
  (~ (Qabs (x q2 - x q1) < eps /\ Qabs (y q2 - y q1) < eps) ->
   (List.length (dedupe (boundaryCrossings q1 q2 w h)) < 2)%nat ->
   extendLineToBounds q1 q2 w h = farExtension q1 q2).
Proof.
  unfold extendLineToBounds. split.
  - intros Hx Hy. apply Qltb_true in Hx, Hy. rewrite Hx, Hy. reflexivity.
  - intros Hnd Hlen.
    destruct (Qltb (Qabs (x q2 - x q1)) eps) eqn:Ex,
             (Qltb (Qabs (y q2 - y q1)) eps) eqn:Ey;
      try (exfalso; apply Hnd; split; apply Qltb_true; assumption);
      cbn [andb];
      destruct (dedupe (boundaryCrossings q1 q2 w h)) as [| u0 [| u1 rest]];
      solve [reflexivity | cbn in Hlen; lia].
Qed.

(** A horizontal line far below a 10x10 rectangle has no admissible
    crossing, so it takes the fallback. *)
Lemma extendLineToBounds_fallback_witness :
  extendLineToBounds (mkPoint 0 1000) (mkPoint 1 1000) 10 10 =
    farExtension (mkPoint 0 1000) (mkPoint 1 1000).
Proof.
  apply (proj2 (extendLineToBounds_fallback (mkPoint 0 1000) (mkPoint 1 1000) 10 10)).
  - intros [Hx _]. vm_compute in Hx. discriminate Hx.
  - vm_compute. lia.
Defined.

Example calibration_flow_parallel :
  let s := addFour calibrationStart "u" (mkPoint 0 0) (mkPoint 10 0)
             (mkPoint 0 10) (mkPoint 10 10) in
  mode s = Calibration /\ parallelError s = true /\ vanishingPoint s = None.
Proof. vm_compute. repeat split. Qed.

(** C1: in calibrating mode with no points and no vanishing point, four
    add-point intents [a], [b], [c], [d] store the four points, derive
    [line1 = (a, b)] and [line2 = (c, d)], and: if the two lines intersect,
    set the vanishing point to their intersection, switch to ray drawing and
    clear the parallel-error flag; if they are parallel, stay in
    calibrating mode, set the parallel-error flag and keep the vanishing
    point null. *)
Theorem addPoint_calibration_four (s : AppState) (uuid : string) (a b c d : Point)
  (Hmode : mode s = Calibration) (Hpts : points (calibration s) = [])
  (Hvp : vanishingPoint s = None) :
  let s' := addFour s uuid a b c d in
  points (calibration s') = [a; b; c; d] /\
  line1 (calibration s') = Some (mkLine a b) /\
  line2 (calibration s') = Some (mkLine c d) /\
  match lineIntersection (mkLine a b) (mkLine c d) with
  | Some v => vanishingPoint s' = Some v /\ mode s' = Offside /\ parallelError s' = false
  | None => vanishingPoint s' = None /\ mode s' = Calibration /\ parallelError s' = true
  end.
Proof.
  destruct s as [m [pts l1 l2] vp rays fl]; cbn in Hmode, Hpts, Hvp; subst.
  unfold addFour, addPointAtImageCoords; cbn.
  destruct (lineIntersection (mkLine a b) (mkLine c d)); cbn; repeat split.
Qed.

Lemma addPoint_calibration_four_witness :
  (let s' := addFour calibrationStart "u" (mkPoint 0 0) (mkPoint 10 10)
               (mkPoint 0 10) (mkPoint 10 0) in
   (exists v, vanishingPoint s' = Some v /\ peq v (mkPoint 5 5)) /\
   mode s' = Offside /\ parallelError s' = false) /\
  (let s' := addFour calibrationStart "u" (mkPoint 0 0) (mkPoint 10 0)
               (mkPoint 0 10) (mkPoint 10 10) in
   vanishingPoint s' = None /\ mode s' = Calibration /\ parallelError s' = true).
Proof.
  split.
  - pose proof (addPoint_calibration_four calibrationStart "u" (mkPoint 0 0) (mkPoint 10 10)
                  (mkPoint 0 10) (mkPoint 10 0) eq_refl eq_refl eq_refl) as H.
    cbv zeta in H |- *. destruct H as (_ & _ & _ & H).
    destruct (lineIntersection (mkLine (mkPoint 0 0) (mkPoint 10 10))
                               (mkLine (mkPoint 0 10) (mkPoint 10 0))) as [v |] eqn:E.
    + destruct H as (Hv & Hm & Hf). split; [| split; assumption].
      exists v. split; [exact Hv |].
      vm_compute in E. injection E as <-. split; reflexivity.
    + vm_compute in E. discriminate E.
  - pose proof (addPoint_calibration_four calibrationStart "u" (mkPoint 0 0) (mkPoint 10 0)
                  (mkPoint 0 10) (mkPoint 10 10) eq_refl eq_refl eq_refl) as H.
    cbv zeta in H |- *. destruct H as (_ & _ & _ & H).
    destruct (lineIntersection (mkLine (mkPoint 0 0) (mkPoint 10 0))
                               (mkLine (mkPoint 0 10) (mkPoint 10 10))) as [v |] eqn:E.
    + vm_compute in E. discriminate E.
    + exact H.
Defined.

(** C2: committing a drag of calibration point [idx] (an index of an
    existing point) overwrites that point with the drag's current position
    and leaves the others; [line1] is re-derived from points 0 and 1 when at
    least 2 points exist and [line2] from points 2 and 3 when at least 4
    exist; with 4 points the vanishing point is recomputed from the updated
    lines: on success it is replaced and the parallel-error flag cleared, on
    failure the flag is set and the previous vanishing point is kept.  The
    mode and the rays are untouched. *)
Theorem commitDrag_calibration (s : AppState) (idx : nat) (orig cur : Point)
  (Hidx : (idx < List.length (points (calibration s)))%nat) :
  let s' := commitDrag s (mkDrag (SrcCalibration idx) orig cur) in
  let pts := points (calibration s) in
  let pts' := points (calibration s') in
  List.length pts' = List.length pts /\
  nth_error pts' idx = Some cur /\
  (forall j, j <> idx -> nth_error pts' j = nth_error pts j) /\
  (if Nat.leb 2 (List.length pts)
   then line1 (calibration s') = Some (mkLine (nth 0 pts' cur) (nth 1 pts' cur))
   else line1 (calibration s') = line1 (calibration s)) /\
  (if Nat.leb 4 (List.length pts)
   then line2 (calibration s') = Some (mkLine (nth 2 pts' cur) (nth 3 pts' cur)) /\
        match lineIntersection (mkLine (nth 0 pts' cur) (nth 1 pts' cur))
                               (mkLine (nth 2 pts' cur) (nth 3 pts' cur)) with
        | Some v => vanishingPoint s' = Some v /\ parallelError s' = false
        | None => vanishingPoint s' = vanishingPoint s /\ parallelError s' = true
        end
   else line2 (calibration s') = line2 (calibration s)) /\
  mode s' = mode s /\ offsideLines s' = offsideLines s.
Proof.
  destruct s as [m [pts l1 l2] vp rays fl]; cbn in Hidx |- *.
  pose proof (set_index_length pts idx cur) as Hlen.
  pose proof (set_index_nth_error_same pts idx cur Hidx) as Hsame.
  pose proof (fun j => set_index_nth_error_other pts idx j cur) as Hother.
  rewrite <- Hlen.
  remember (set_index pts idx cur) as L eqn:HL.
  split; [reflexivity |]. split; [exact Hsame |]. split; [exact Hother |].
  destruct L as [| a [| b [| c [| d rest]]]]; cbn -[recomputeVanishingPoint];
    rewrite ?recompute_mode, ?recompute_offsideLines; repeat split.
  unfold recomputeVanishingPoint.
  destruct (lineIntersection (mkLine a b) (mkLine c d)); cbn; repeat split.
Qed.

Example drag_rederives_vanishing_point :
  option_map (fun v => (Qred (x v), Qred (y v)))
    (vanishingPoint (commitDrag calibratedState dragPoint0)) = Some (40 # 9, 50 # 9).
Proof. reflexivity. Qed.

Lemma commitDrag_calibration_witness :
  (0 < List.length (points (calibration calibratedState)))%nat /\
  nth_error (points (calibration (commitDrag calibratedState dragPoint0))) 0 =
    Some (mkPoint 0 2).
Proof.
  assert (H : (0 < List.length (points (calibration calibratedState)))%nat)
    by (vm_compute; lia).
  split; [exact H |].
  exact (proj1 (proj2 (commitDrag_calibration calibratedState 0 (mkPoint 0 0)
                         (mkPoint 0 2) H))).
Defined.

(** C5: out-of-range add-point intents are silent no-ops.  When the
    calibration already holds 4 points, an add-point intent leaves the
    calibration (points and lines), the vanishing point, the mode and the
    parallel-error flag exactly as they were; in ray-drawing mode without a
    vanishing point it changes nothing at all.  Both are total functions
    (no error), and neither add-point nor commit-drag ever takes the number
    of calibration points above 4. *)
Theorem addPoint_out_of_range_noop (s : AppState) (uuid : string) (p : Point) :
  (List.length (points (calibration s)) = 4%nat ->
   let s' := addPointAtImageCoords s uuid p in
   calibration s' = calibration s /\ vanishingPoint s' = vanishingPoint s /\
   mode s' = mode s /\ parallelError s' = parallelError s) /\
  (mode s = Offside -> vanishingPoint s = None ->
   addPointAtImageCoords s uuid p = s) /\
  ((List.length (points (calibration s)) <= 4)%nat ->
   (List.length (points (calibration (addPointAtImageCoords s uuid p))) <= 4)%nat /\
   forall drag : DragState,
     (List.length (points (calibration (commitDrag s drag))) <= 4)%nat).
Proof.
  destruct s as [m [pts l1 l2] vp rays fl]; cbn [mode calibration vanishingPoint points].
  split; [| split].
  - intros H4. unfold addPointAtImageCoords; cbn [mode calibration points].
    destruct m; cbn -[recomputeVanishingPoint].
    + repeat split.
    + destruct pts as [| a [| b [| c [| d [| e rest]]]]]; cbn in H4; try discriminate H4.
      cbn. repeat split.
    + destruct vp; repeat split.
  - intros -> ->. reflexivity.
  - intros Hle. split.
    + unfold addPointAtImageCoords; cbn [mode calibration points].
      destruct m; cbn -[recomputeVanishingPoint]; [exact Hle | | destruct vp; exact Hle].
      destruct pts as [| a [| b [| c [| d [| e rest]]]]]; cbn -[recomputeVanishingPoint] in *;
        rewrite ?recompute_calibration; cbn; lia.
    + intros [[idx | lid] orig cur]; cbn -[recomputeVanishingPoint].
      * rewrite set_index_length. exact Hle.
      * exact Hle.
Qed.

Lemma addPoint_out_of_range_noop_witness :
  List.length (points (calibration calibratedState)) = 4%nat /\
  calibration (addPointAtImageCoords calibratedState "v" (mkPoint 3 3)) =
    calibration calibratedState.
Proof.
  assert (H : List.length (points (calibration calibratedState)) = 4%nat) by reflexivity.
  split; [exact H |].
  exact (proj1 (proj1 (addPoint_out_of_range_noop calibratedState "v" (mkPoint 3 3)) H)).
Defined.

(** C9: a new ray's colour depends only on the ray count at creation:
    it is entry [count mod 12] of the fixed 12-colour palette.  Deleting a
    ray only removes it: every remaining ray is one of the original rays,
    with the same id, colour and through-point; with distinct ids, deleting
    the ray at index [i] leaves exactly the rays before and after it (e.g.
    deleting index 1 of 3 leaves rays 0 and 2 as they were). *)
Theorem ray_color_and_delete :
  List.length OFFSIDE_COLORS = 12%nat /\
  (forall (s : AppState) (uuid : string) (p : Point),
     mode s = Offside -> vanishingPoint s <> None ->
     offsideLines (addPointAtImageCoords s uuid p) =
       offsideLines s ++
       [mkOffsideLine uuid p
          (nth (Nat.modulo (List.length (offsideLines s)) 12) OFFSIDE_COLORS ""%string)]) /\
  (forall (rid : string) (rays : list OffsideLine) (l : OffsideLine),
     In l (handleDeleteLine rid rays) -> In l rays /\ id l <> rid) /\
  (forall (rays : list OffsideLine) (i : nat) (r : OffsideLine),
     NoDup (map id rays) -> nth_error rays i = Some r ->
     handleDeleteLine (id r) rays = firstn i rays ++ skipn (S i) rays).
Proof.
  split; [reflexivity |]. split; [| split].
  - intros [m cal vp rays fl] uuid p Hm Hvp; cbn in Hm, Hvp; subst m.
    destruct vp as [v |]; [| exfalso; apply Hvp; reflexivity].
    reflexivity.
  - intros rid rays l Hl. unfold handleDeleteLine in Hl.
    apply filter_In in Hl. destruct Hl as [Hin Hneq]. split; [exact Hin |].
    intro E. subst rid. rewrite String.eqb_refl in Hneq. discriminate Hneq.
  - exact handleDeleteLine_at.
Qed.

Lemma ray_color_and_delete_witness :
  handleDeleteLine "b" threeRays =
    [mkOffsideLine "a" (mkPoint 1 1) "#FF4444"; mkOffsideLine "c" (mkPoint 3 3) "#FFFF44"] /\
  offsideLines (addPointAtImageCoords calibratedState "n" (mkPoint 7 7)) =
    [mkOffsideLine "n" (mkPoint 7 7) "#FF4444"].
Proof.
  destruct ray_color_and_delete as (_ & Hadd & _ & Hdel).
  split.
  - refine (Hdel threeRays 1%nat (mkOffsideLine "b"%string (mkPoint 2 2) (getOffsideColor 1)) _ eq_refl).
    repeat constructor; cbn; intuition discriminate.
  - refine (Hadd calibratedState "n"%string (mkPoint 7 7) eq_refl _).
    vm_compute. discriminate.
Defined.

(** ** Zoom operations *)

Lemma zoom_clamp_range (v : Q) : 1 <= js_min MAX_ZOOM (js_max MIN_ZOOM v) <= 5.
Proof. unfold js_min, js_max, MAX_ZOOM, MIN_ZOOM. case_Qltb; lra. Qed.

Lemma Qinv_5_4 : / (5 # 4) = 4 # 5.
Proof. reflexivity. Qed.

(** Every zoom operation keeps the zoom level within [[1, 5]]: the wheel
    and the toolbar buttons from any zoom in that range, a pinch from any
    state at all, and [resetView] returns to 1. *)
Theorem zoom_operations_in_range (layout : Layout) (image : option Image) (view : ViewState)
  (screenPt : Point) (deltaY : Q) (pinch : PinchState) (dist : Q) (mid : Point)
  (Hz : 1 <= zoom view <= 5) :
  1 <= zoom (handleWheel layout image view screenPt deltaY) <= 5 /\
  1 <= zoom (zoomIn layout image view) <= 5 /\
  1 <= zoom (zoomOut layout image view) <= 5 /\
  1 <= zoom (pinchMove layout image pinch dist mid) <= 5 /\
  zoom resetView = 1.
Proof.
  unfold handleWheel, zoomIn, zoomOut, pinchMove, zoomAroundPoint.
  split; [| split; [| split; [| split]]].
  - destruct (Qeqb _ _); [exact Hz | apply zoom_clamp_range].
  - destruct (Qeqb _ _); [exact Hz |]. cbn [zoom].
    unfold zoomInTarget, js_min, MAX_ZOOM, BUTTON_ZOOM_FACTOR. case_Qltb; lra.
  - destruct (Qeqb _ _); [exact Hz |]. cbn [zoom].
    unfold zoomOutTarget, js_max, MIN_ZOOM, BUTTON_ZOOM_FACTOR, Qdiv.
    rewrite Qinv_5_4. case_Qltb; lra.
  - apply zoom_clamp_range.
  - reflexivity.
Qed.

Lemma zoom_operations_in_range_witness :
  1 <= zoom (mkView 2 (mkPoint 0 0)) <= 5 /\
  1 <= zoom (zoomIn (computeLayout 100 100 (mkImage 50 50)) (Some (mkImage 50 50))
               (mkView 2 (mkPoint 0 0))) <= 5.
Proof.
  assert (H : 1 <= zoom (mkView 2 (mkPoint 0 0)) <= 5)
    by (cbn; split; vm_compute; discriminate).
  split; [exact H |].
  exact (proj1 (proj2 (zoom_operations_in_range (computeLayout 100 100 (mkImage 50 50))
          (Some (mkImage 50 50)) (mkView 2 (mkPoint 0 0)) (mkPoint 0 0) 0
          (mkPinch 1 (mkPoint 0 0) 1 (mkPoint 0 0)) 1 (mkPoint 0 0) H))).
Defined.

Lemma Qmult_nonzero (a b : Q) : ~ a * b == 0 -> ~ b == 0 /\ ~ a == 0.
Proof.
  intros H; split; intro E; apply H; rewrite E; ring.
Qed.

Lemma anchoredAfter_same (layout : Layout) (view : ViewState) (focal : Point) :
  ~ scale layout * zoom view == 0 -> peq (anchoredAfter layout view view focal) focal.
Proof.
  intros Hs. destruct layout as [s [ox oy] cw ch], view as [z [px py]], focal as [fx fy].
  unfold anchoredAfter, getEffectiveTransform, effOffset, imageToScreen, screenToImage, peq;
    cbn in *. apply Qmult_nonzero in Hs. split; field; tauto.
Qed.

Lemma zoomAroundPoint_anchor (layout : Layout) (image : option Image) (view : ViewState)
  (focal : Point) (nz : Q) :
  ~ scale layout * zoom view == 0 ->
  clampPan layout image (panForZoom layout view focal nz) nz = panForZoom layout view focal nz ->
  peq (anchoredAfter layout view (zoomAroundPoint layout image view focal nz) focal) focal.
Proof.
  intros Hs Hfree. unfold zoomAroundPoint. rewrite Hfree.
  destruct layout as [s [ox oy] cw ch], view as [z [px py]], focal as [fx fy].
  unfold anchoredAfter, panForZoom, canvasCenter, getEffectiveTransform, effOffset,
    computePanForZoomAroundPoint, imageToScreen, screenToImage, peq; cbn in *.
  apply Qmult_nonzero in Hs. split; field; tauto.
Qed.

(** A wheel notch keeps the image point under the cursor under the cursor,
    whenever the pan it computes is not cut by the clamp (and the current
    effective scale is nonzero). *)
Theorem handleWheel_anchors_cursor (layout : Layout) (image : option Image)
  (view : ViewState) (screenPt : Point) (deltaY : Q)
  (Hs : ~ scale layout * zoom view == 0)
  (Hfree : clampPan layout image
             (panForZoom layout view screenPt (wheelTargetZoom (zoom view) deltaY))
             (wheelTargetZoom (zoom view) deltaY) =
           panForZoom layout view screenPt (wheelTargetZoom (zoom view) deltaY)) :
  peq (anchoredAfter layout view (handleWheel layout image view screenPt deltaY) screenPt)
      screenPt.
Proof.
  unfold handleWheel. destruct (Qeqb _ _).
  - apply anchoredAfter_same. exact Hs.
  - apply zoomAroundPoint_anchor; assumption.
Qed.

Lemma handleWheel_anchors_cursor_witness :
  peq (anchoredAfter (mkLayout 1 (mkPoint 0 0) 100 100) (mkView 1 (mkPoint 0 0))
         (handleWheel (mkLayout 1 (mkPoint 0 0) 100 100) None (mkView 1 (mkPoint 0 0))
            (mkPoint 30 40) (-1)) (mkPoint 30 40))
      (mkPoint 30 40).
Proof.
  apply handleWheel_anchors_cursor.
  - intro E. vm_compute in E. discriminate E.
  - reflexivity.
Defined.

(** The toolbar zoom buttons keep the image point at the canvas centre at
    the canvas centre, whenever the pan they compute is not cut by the
    clamp. *)
Theorem zoom_buttons_anchor_center (layout : Layout) (image : option Image)
  (view : ViewState) (Hs : ~ scale layout * zoom view == 0) :
  (clampPan layout image (panForZoom layout view (canvasCenter layout) (zoomInTarget (zoom view)))
     (zoomInTarget (zoom view)) =
   panForZoom layout view (canvasCenter layout) (zoomInTarget (zoom view)) ->
   peq (anchoredAfter layout view (zoomIn layout image view) (canvasCenter layout))
       (canvasCenter layout)) /\
  (clampPan layout image (panForZoom layout view (canvasCenter layout) (zoomOutTarget (zoom view)))
     (zoomOutTarget (zoom view)) =
   panForZoom layout view (canvasCenter layout) (zoomOutTarget (zoom view)) ->
   peq (anchoredAfter layout view (zoomOut layout image view) (canvasCenter layout))
       (canvasCenter layout)).
Proof.
  split; intros Hfree; [unfold zoomIn | unfold zoomOut]; destruct (Qeqb _ _);
    solve [apply anchoredAfter_same; exact Hs | apply zoomAroundPoint_anchor; assumption].
Qed.

Lemma zoom_buttons_anchor_center_witness :
  peq (anchoredAfter (mkLayout 1 (mkPoint 0 0) 100 100) (mkView 1 (mkPoint 0 0))
         (zoomIn (mkLayout 1 (mkPoint 0 0) 100 100) None (mkView 1 (mkPoint 0 0)))
         (canvasCenter (mkLayout 1 (mkPoint 0 0) 100 100)))
      (canvasCenter (mkLayout 1 (mkPoint 0 0) 100 100)).
Proof.
  apply (proj1 (zoom_buttons_anchor_center (mkLayout 1 (mkPoint 0 0) 100 100) None
                  (mkView 1 (mkPoint 0 0)) ltac:(intro E; vm_compute in E; discriminate E))).
  reflexivity.
Defined.

(** A pinch move draws the image point that was under the initial midpoint
    at [mid + (mid - initialMidpoint) * (1 - newZoom / initialZoom)]
    whenever the clamp leaves the pan alone: it stays under the fingers only
    while the midpoint has not moved or the zoom has not changed. *)
Theorem pinchMove_midpoint_drift (layout : Layout) (image : option Image)
  (pinch : PinchState) (dist : Q) (mid : Point)
  (Hs : ~ scale layout * initialZoom pinch == 0)
  (Hfree : pan (pinchMove layout image pinch dist mid) = pan (pinchMove layout None pinch dist mid)) :
  let nz := pinchTargetZoom pinch dist in
  let k := 1 - nz / initialZoom pinch in
  peq (anchoredAfter layout (pinchStartView pinch) (pinchMove layout image pinch dist mid)
         (initialMidpoint pinch))
      {| x := x mid + (x mid - x (initialMidpoint pinch)) * k;
         y := y mid + (y mid - y (initialMidpoint pinch)) * k |}.
Proof.
  intros nz k. unfold anchoredAfter.
  assert (Hz : zoom (pinchMove layout image pinch dist mid) = nz) by reflexivity.
  remember (pinchMove layout image pinch dist mid) as v eqn:Hv.
  destruct v as [vz vp]. cbn in Hz, Hfree. subst vz vp.
  subst k nz. apply Qmult_nonzero in Hs. destruct Hs as [Hiz Hbs].
  destruct layout as [s [ox oy] cw ch], pinch as [d0 [mx0 my0] iz [ipx ipy]], mid as [mx my].
  unfold pinchStartView, getEffectiveTransform, effOffset, pinchMove, canvasCenter,
    computePanForZoomAroundPoint, imageToScreen, screenToImage, peq; cbn in *.
  split; field; tauto.
Qed.

Lemma pinchMove_midpoint_drift_witness :
  let pinch := mkPinch 10 (mkPoint 50 50) 1 (mkPoint 0 0) in
  let layout := mkLayout 1 (mkPoint 0 0) 100 100 in
  peq (anchoredAfter layout (pinchStartView pinch)
         (pinchMove layout None pinch 20 (mkPoint 60 50)) (initialMidpoint pinch))
      {| x := 60 + (60 - 50) * (1 - pinchTargetZoom pinch 20 / 1);
         y := 50 + (50 - 50) * (1 - pinchTargetZoom pinch 20 / 1) |}.
Proof.
  apply (pinchMove_midpoint_drift (mkLayout 1 (mkPoint 0 0) 100 100) None
           (mkPinch 10 (mkPoint 50 50) 1 (mkPoint 0 0)) 20 (mkPoint 60 50)).
  - intro E. vm_compute in E. discriminate E.
  - reflexivity.
Defined.

Lemma offsideLoop_spec (s : Q) (o sp : Point) (lines : list OffsideLine) (acc : HitAcc) :
  let r := fold_left (offsideStep s o sp) lines acc in
  fst r <= fst acc /\
  (forall l, In l lines -> fst r <= dist2 (imageToScreen (throughPoint l) s o) sp) /\
  (r = acc \/
   exists l, In l lines /\ snd r = Some (SrcOffside (id l)) /\
             fst r = dist2 (imageToScreen (throughPoint l) s o) sp /\ fst r < fst acc).
Proof.
  revert acc. induction lines as [|l0 rest IH]; intros [b src]; cbn zeta.
  - cbn. split; [apply Qle_refl|]. split; [intros l []|left; reflexivity].
  - cbn [fold_left].
    set (d0 := dist2 (imageToScreen (throughPoint l0) s o) sp).
    assert (Hstep : offsideStep s o sp (b, src) l0 =
                    if Qltb d0 b then (d0, Some (SrcOffside (id l0))) else (b, src))
      by reflexivity.
    rewrite Hstep. destruct (Qltb d0 b) eqn:E; [apply Qltb_true in E|apply Qltb_false in E].
    + destruct (IH (d0, Some (SrcOffside (id l0)))) as [Hle [Hall Hcase]].
      cbn [fst snd] in *. split; [lra|]. split.
      * intros l [<-|Hin]; [exact Hle|exact (Hall l Hin)].
      * right. destruct Hcase as [Hr | [l [Hin [Hsrc [Hd Hlt]]]]].
        -- exists l0. rewrite Hr. cbn. repeat split; [left; reflexivity|exact E].
        -- exists l. repeat split; [right; exact Hin|exact Hsrc|exact Hd|lra].
    + destruct (IH (b, src)) as [Hle [Hall Hcase]].
      cbn [fst snd] in *. split; [exact Hle|]. split.
      * intros l [<-|Hin]; [|exact (Hall l Hin)].
        apply Qle_trans with b; [exact Hle|exact E].
      * destruct Hcase as [Hr | [l [Hin H]]]; [left; exact Hr|].
        right. exists l. split; [right; exact Hin|exact H].
Qed.

Lemma calibrationLoop_spec (s : Q) (o sp : Point) (pts : list Point) (n : nat) (acc : HitAcc) :
  let dc j := dist2 (imageToScreen (nth j pts (mkPoint 0 0)) s o) sp in
  let r := calibrationLoop s o sp pts n acc in
  fst r <= fst acc /\
  (forall j, (j < n)%nat -> fst r <= dc j) /\
  (r = acc \/
   exists i, (i < n)%nat /\ snd r = Some (SrcCalibration i) /\ fst r = dc i /\
             dc i < fst acc /\ (forall j, (i < j < n)%nat -> dc i < dc j)).
Proof.
  intros dc. revert acc. induction n as [|n IH]; intros [b src]; cbn zeta.
  - cbn. split; [apply Qle_refl|]. split; [intros j Hj; lia|left; reflexivity].
  - change (calibrationLoop s o sp pts (S n) (b, src)) with
      (calibrationLoop s o sp pts n
         (if Qltb (dc n) b then (dc n, Some (SrcCalibration n)) else (b, src))).
    destruct (Qltb (dc n) b) eqn:E; [apply Qltb_true in E|apply Qltb_false in E].
    + destruct (IH (dc n, Some (SrcCalibration n))) as [Hle [Hall Hcase]].
      cbn [fst snd] in *. split; [lra|]. split.
      * intros j Hj. destruct (PeanoNat.Nat.eq_dec j n) as [->|Hne]; [exact Hle|apply Hall; lia].
      * right. destruct Hcase as [Hr | [i [Hi [Hsrc [Hd [Hlt Hgt]]]]]].
        -- exists n. rewrite Hr. cbn. repeat split; [lia|exact E|intros j Hj; lia].
        -- exists i. repeat split; [lia|exact Hsrc|exact Hd|lra|].
           intros j Hj. destruct (PeanoNat.Nat.eq_dec j n) as [->|Hne]; [exact Hlt|apply Hgt; lia].
    + destruct (IH (b, src)) as [Hle [Hall Hcase]].
      cbn [fst snd] in *. split; [exact Hle|]. split.
      * intros j Hj. destruct (PeanoNat.Nat.eq_dec j n) as [->|Hne]; [lra|apply Hall; lia].
      * destruct Hcase as [Hr | [i [Hi [Hsrc [Hd [Hlt Hgt]]]]]]; [left; exact Hr|].
        right. exists i. repeat split; [lia|exact Hsrc|exact Hd|exact Hlt|].
        intros j Hj. destruct (PeanoNat.Nat.eq_dec j n) as [->|Hne]; [lra|apply Hgt; lia].
Qed.

Lemma hitTestPoints_unfold (layout : Layout) (view : ViewState) (lines : list OffsideLine)
  (pts : list Point) (sp : Point) :
  let E := getEffectiveTransform layout view in
  hitTestPoints layout view lines pts sp =
  snd (calibrationLoop (fst E) (snd E) sp pts (List.length pts)
         (fold_left (offsideStep (fst E) (snd E) sp) lines (HIT_RADIUS * HIT_RADIUS, None))).
Proof.
  cbv zeta. unfold hitTestPoints. destruct (getEffectiveTransform layout view). reflexivity.
Qed.

(** [hitTestPoints] returns a calibration index only for a point drawn
    strictly within [HIT_RADIUS] of the pointer that is the nearest of all
    the calibration points, strictly nearer than every ray's through point
    and than every calibration point of higher index (ties go to the point
    drawn on top). *)
Theorem hitTestPoints_calibration_nearest (layout : Layout) (view : ViewState)
  (lines : list OffsideLine) (pts : list Point) (sp : Point) (i : nat)
  (Hhit : hitTestPoints layout view lines pts sp = Some (SrcCalibration i)) :
  let D := screenDist2 layout view sp in
  let pi := nth i pts (mkPoint 0 0) in
  (i < List.length pts)%nat /\ D pi < HIT_RADIUS * HIT_RADIUS /\
  (forall j, (j < List.length pts)%nat -> D pi <= D (nth j pts (mkPoint 0 0))) /\
  (forall j, (i < j < List.length pts)%nat -> D pi < D (nth j pts (mkPoint 0 0))) /\
  (forall l, In l lines -> D pi < D (throughPoint l)).
Proof.
  rewrite hitTestPoints_unfold in Hhit. unfold screenDist2. cbv zeta in *.
  set (E := getEffectiveTransform layout view) in *.
  set (acc0 := (HIT_RADIUS * HIT_RADIUS, @None DraggablePointSource)) in *.
  destruct (offsideLoop_spec (fst E) (snd E) sp lines acc0) as [Ole [Oall Ocase]].
  set (acc1 := fold_left (offsideStep (fst E) (snd E) sp) lines acc0) in *.
  destruct (calibrationLoop_spec (fst E) (snd E) sp pts (List.length pts) acc1)
    as [Cle [Call Ccase]].
  set (r := calibrationLoop (fst E) (snd E) sp pts (List.length pts) acc1) in *. cbv zeta in *.
  destruct Ccase as [Hr | [i' [Hi [Hsrc [Hd [Hlt Hgt]]]]]].
  - exfalso. rewrite Hr in Hhit.
    destruct Ocase as [Ha | [l [_ [Hs _]]]]; [rewrite Ha in Hhit|rewrite Hs in Hhit];
      discriminate Hhit.
  - rewrite Hsrc in Hhit. injection Hhit as <-.
    split; [exact Hi|]. split; [|split; [|split]].
    + apply Qlt_le_trans with (fst acc1); [exact Hlt|exact Ole].
    + intros j Hj. rewrite <- Hd. exact (Call j Hj).
    + exact Hgt.
    + intros l Hl. apply Qlt_le_trans with (fst acc1); [exact Hlt|exact (Oall l Hl)].
Qed.

Lemma hitTestPoints_calibration_nearest_witness :
  let layout := mkLayout 1 (mkPoint 0 0) 100 100 in
  let view := mkView 1 (mkPoint 0 0) in
  let pts := [mkPoint 10 10; mkPoint 12 10; mkPoint 50 50] in
  let D := screenDist2 layout view (mkPoint 11 10) in
  let pi := nth 1 pts (mkPoint 0 0) in
  (1 < List.length pts)%nat /\ D pi < HIT_RADIUS * HIT_RADIUS /\
  (forall j, (j < List.length pts)%nat -> D pi <= D (nth j pts (mkPoint 0 0))) /\
  (forall j, (1 < j < List.length pts)%nat -> D pi < D (nth j pts (mkPoint 0 0))) /\
  (forall l, In l [] -> D pi < D (throughPoint l)).
Proof.
  apply (hitTestPoints_calibration_nearest (mkLayout 1 (mkPoint 0 0) 100 100)
           (mkView 1 (mkPoint 0 0)) [] [mkPoint 10 10; mkPoint 12 10; mkPoint 50 50]
           (mkPoint 11 10) 1).
  vm_compute. reflexivity.
Defined.

(** [hitTestPoints] returns a ray only for a ray of the list whose through
    point is drawn strictly within [HIT_RADIUS] of the pointer and is at
    least as near as every other ray's through point and every calibration
    point (rays win ties, as they are drawn on top). *)
Theorem hitTestPoints_offside_nearest (layout : Layout) (view : ViewState)
  (lines : list OffsideLine) (pts : list Point) (sp : Point) (lineId : string)
  (Hhit : hitTestPoints layout view lines pts sp = Some (SrcOffside lineId)) :
  let D := screenDist2 layout view sp in
  exists l, In l lines /\ id l = lineId /\ D (throughPoint l) < HIT_RADIUS * HIT_RADIUS /\
    (forall l', In l' lines -> D (throughPoint l) <= D (throughPoint l')) /\
    (forall j, (j < List.length pts)%nat -> D (throughPoint l) <= D (nth j pts (mkPoint 0 0))).
Proof.
  rewrite hitTestPoints_unfold in Hhit. unfold screenDist2. cbv zeta in *.
  set (E := getEffectiveTransform layout view) in *.
  set (acc0 := (HIT_RADIUS * HIT_RADIUS, @None DraggablePointSource)) in *.
  destruct (offsideLoop_spec (fst E) (snd E) sp lines acc0) as [Ole [Oall Ocase]].
  set (acc1 := fold_left (offsideStep (fst E) (snd E) sp) lines acc0) in *.
  destruct (calibrationLoop_spec (fst E) (snd E) sp pts (List.length pts) acc1)
    as [Cle [Call Ccase]].
  set (r := calibrationLoop (fst E) (snd E) sp pts (List.length pts) acc1) in *. cbv zeta in *.
  destruct Ccase as [Hr | [i' [_ [Hsrc _]]]];
    [|rewrite Hsrc in Hhit; discriminate Hhit].
  rewrite Hr in Hhit, Call.
  destruct Ocase as [Ha | [l [Hin [Hs [Hd Hlt]]]]];
    [rewrite Ha in Hhit; discriminate Hhit|].
  rewrite Hs in Hhit. injection Hhit as <-.
  exists l. split; [exact Hin|]. split; [reflexivity|]. rewrite <- Hd.
  split; [exact Hlt|]. split; [exact Oall|exact Call].
Qed.

Lemma hitTestPoints_offside_nearest_witness :
  let layout := mkLayout 1 (mkPoint 0 0) 100 100 in
  let view := mkView 1 (mkPoint 0 0) in
  let lines := [mkOffsideLine "r" (mkPoint 11 11) "red"] in
  let pts := [mkPoint 10 10] in
  let D := screenDist2 layout view (mkPoint 11 10) in
  exists l, In l lines /\ id l = "r"%string /\ D (throughPoint l) < HIT_RADIUS * HIT_RADIUS /\
    (forall l', In l' lines -> D (throughPoint l) <= D (throughPoint l')) /\
    (forall j, (j < List.length pts)%nat -> D (throughPoint l) <= D (nth j pts (mkPoint 0 0))).
Proof.
  apply (hitTestPoints_offside_nearest (mkLayout 1 (mkPoint 0 0) 100 100)
           (mkView 1 (mkPoint 0 0)) [mkOffsideLine "r" (mkPoint 11 11) "red"]
           [mkPoint 10 10] (mkPoint 11 10) "r").
  vm_compute. reflexivity.
Defined.

(** [hitTestPoints] returns [null] exactly when no ray through point and no
    calibration point is drawn strictly within [HIT_RADIUS] of the
    pointer. *)
Theorem hitTestPoints_none_iff (layout : Layout) (view : ViewState)
  (lines : list OffsideLine) (pts : list Point) (sp : Point) :
  let D := screenDist2 layout view sp in
  hitTestPoints layout view lines pts sp = None <->
  (forall l, In l lines -> HIT_RADIUS * HIT_RADIUS <= D (throughPoint l)) /\
  (forall j, (j < List.length pts)%nat -> HIT_RADIUS * HIT_RADIUS <= D (nth j pts (mkPoint 0 0))).
Proof.
  rewrite hitTestPoints_unfold. unfold screenDist2. cbv zeta.
  set (E := getEffectiveTransform layout view).
  set (acc0 := (HIT_RADIUS * HIT_RADIUS, @None DraggablePointSource)).
  destruct (offsideLoop_spec (fst E) (snd E) sp lines acc0) as [Ole [Oall Ocase]].
  set (acc1 := fold_left (offsideStep (fst E) (snd E) sp) lines acc0) in *.
  destruct (calibrationLoop_spec (fst E) (snd E) sp pts (List.length pts) acc1)
    as [Cle [Call Ccase]].
  set (r := calibrationLoop (fst E) (snd E) sp pts (List.length pts) acc1) in *. cbv zeta in *.
  split.
  - intros Hnone.
    destruct Ccase as [Hr | [i [_ [Hsrc _]]]]; [|rewrite Hsrc in Hnone; discriminate Hnone].
    rewrite Hr in Hnone, Call.
    destruct Ocase as [Ha | [l [_ [Hs _]]]]; [|rewrite Hs in Hnone; discriminate Hnone].
    rewrite Ha in Oall, Call. split; [exact Oall|exact Call].
  - intros [Hl Hc].
    destruct Ocase as [Ha | [l [Hin [_ [Hd Hlt]]]]].
    2:{ exfalso. specialize (Hl l Hin). rewrite <- Hd in Hl. unfold acc0 in Hlt; cbn [fst] in Hlt. lra. }
    destruct Ccase as [Hr | [i [Hi [_ [_ [Hlt _]]]]]].
    + rewrite Hr, Ha. reflexivity.
    + exfalso. specialize (Hc i Hi). rewrite Ha in Hlt. unfold acc0 in Hlt; cbn [fst] in Hlt. lra.
Qed.

Lemma touchInv_start (hypot : Q -> Q -> Q) (layout : Layout) (st : TouchState)
  (sp : Point) (t0 : Q) :
  touchInv sp (getImagePointFromScreen layout (view st) sp)
    (hitTestPoints layout (view st) (offsideLines (app st)) (points (calibration (app st))) sp)
    t0 (app st) (zoom (view st)) true (handleCanvasTouchStart hypot layout st [sp] t0).
Proof.
  eexists. cbn. repeat split; try reflexivity; discriminate.
Qed.

Lemma touchInv_move (hypot : Q -> Q -> Q) (layout : Layout) (image : option Image)
  (sp ip : Point) (h : option DraggablePointSource) (t0 : Q) (a : AppState) (z : Q)
  (within : bool) (s : TouchState) (m : Point) :
  touchInv sp ip h t0 a z within s ->
  touchInv sp ip h t0 a z
    (within && Qle_bool (dist2 m sp) (DRAG_THRESHOLD * DRAG_THRESHOLD))
    (handleCanvasTouchMove hypot layout image s [m]).
Proof.
  intros (p & Hp & Hsp & Hip & Hh & Ht & Ha & Hz & Hnone & Hdrag & Htap).
  unfold handleCanvasTouchMove. rewrite Hp. rewrite Hsp.
  destruct (gesture p) eqn:G.
  - (* "none" *)
    assert (Hw : within = true) by (apply Hnone; reflexivity). subst within.
    cbn [andb].
    destruct (Qltb (DRAG_THRESHOLD * DRAG_THRESHOLD) (dist2 m sp)) eqn:E.
    + apply Qltb_true in E.
      assert (Hb : Qle_bool (dist2 m sp) (DRAG_THRESHOLD * DRAG_THRESHOLD) = false).
      { destruct (Qle_bool _ _) eqn:B; [|reflexivity].
        apply Qle_bool_iff in B. exfalso. lra. }
      rewrite Hb.
      destruct (hitTarget p) as [src|] eqn:Hht.
      * eexists; split; [reflexivity|]; cbn; repeat split; try eassumption; try congruence.
        intros _. exists src. eexists. repeat split; [rewrite <- Hh; reflexivity|exact Hip].
      * destruct (Qltb 1 (zoom (view s))) eqn:Z.
        -- eexists; split; [reflexivity|]; cbn; repeat split; try eassumption; try congruence.
        -- eexists; split; [reflexivity|]; cbn; repeat split; try eassumption; try congruence.
    + apply Qltb_false in E.
      assert (Hb : Qle_bool (dist2 m sp) (DRAG_THRESHOLD * DRAG_THRESHOLD) = true)
        by (apply Qle_bool_iff; exact E).
      rewrite Hb. destruct (hitTarget p) eqn:Hht; eexists; split; (reflexivity || idtac); cbn;
        repeat split; try eassumption; try congruence.
  - (* "tap" never occurs *) exfalso. exact (Htap eq_refl).
  - (* "drag" *)
    assert (Hw : within = false)
      by (destruct within; [discriminate (proj2 Hnone eq_refl)|reflexivity]).
    subst within. cbn [andb].
    destruct (Hdrag eq_refl) as (src & d & Hsrc & _ & _ & _).
    rewrite Hh, Hsrc. eexists; split; [reflexivity|]; cbn; repeat split; try eassumption; try congruence.
    intros _. exists src. eexists. split; [reflexivity|]. split; [reflexivity|].
    cbn. split; [reflexivity|exact Hip].
  - (* "pinch" *)
    assert (Hw : within = false)
      by (destruct within; [discriminate (proj2 Hnone eq_refl)|reflexivity]).
    subst within. cbn [andb]. exists p. rewrite G.
    repeat split; try eassumption; try discriminate; rewrite G in *; assumption.
  - (* "pan" *)
    assert (Hw : within = false)
      by (destruct within; [discriminate (proj2 Hnone eq_refl)|reflexivity]).
    subst within. cbn [andb]. destruct (hitTarget p) eqn:Hht; eexists; split; (reflexivity || idtac); cbn;
      repeat split; try eassumption; try congruence.
Qed.

Lemma touchInv_moves (hypot : Q -> Q -> Q) (layout : Layout) (image : option Image)
  (sp ip : Point) (h : option DraggablePointSource) (t0 : Q) (a : AppState) (z : Q)
  (moves : list Point) : forall (within : bool) (s : TouchState),
  touchInv sp ip h t0 a z within s ->
  touchInv sp ip h t0 a z
    (within && forallb (fun m => Qle_bool (dist2 m sp) (DRAG_THRESHOLD * DRAG_THRESHOLD)) moves)
    (fold_left (fun s m => handleCanvasTouchMove hypot layout image s [m]) moves s).
Proof.
  induction moves as [|m rest IH]; intros within s Hinv; cbn [fold_left forallb].
  - rewrite andb_true_r. exact Hinv.
  - rewrite andb_assoc. apply IH. apply touchInv_move. exact Hinv.
Qed.

Lemma forallb_within (sp : Point) (moves : list Point) :
  forallb (fun m => Qle_bool (dist2 m sp) (DRAG_THRESHOLD * DRAG_THRESHOLD)) moves = true <->
  Forall (fun m => dist2 m sp <= DRAG_THRESHOLD * DRAG_THRESHOLD) moves.
Proof.
  rewrite forallb_forall, Forall_forall.
  split; intros H m Hm; specialize (H m Hm); apply Qle_bool_iff; exact H.
Qed.

(** A one-finger touch adds a point (a calibration point or a ray, as
    [addPointAtImageCoords] decides) at the image point under the finger
    when it went down, if it hit no existing point, never moved more than
    [DRAG_THRESHOLD] pixels from where it started and was lifted within
    [TAP_MAX_DURATION] milliseconds. *)
Theorem singleFingerTouch_tap (hypot : Q -> Q -> Q) (layout : Layout) (image : option Image)
  (st : TouchState) (sp : Point) (t0 : Q) (moves : list Point) (t1 : Q) (uuid : string)
  (Hhit : hitTestPoints layout (view st) (offsideLines (app st))
            (points (calibration (app st))) sp = None)
  (Hstill : Forall (fun m => dist2 m sp <= DRAG_THRESHOLD * DRAG_THRESHOLD) moves)
  (Hquick : t1 - t0 < TAP_MAX_DURATION) :
  app (singleFingerTouch hypot layout image st sp t0 moves t1 uuid) =
  addPointAtImageCoords (app st) uuid (getImagePointFromScreen layout (view st) sp).
Proof.
  apply forallb_within in Hstill.
  destruct (touchInv_moves hypot layout image sp _ _ t0 _ _ moves true _
              (touchInv_start hypot layout st sp t0))
    as (p & Hp & Hsp & Hip & Hh & Ht & Ha & Hz & Hnone & Hdrag & Htap).
  rewrite Hstill in Hnone. cbn [andb] in Hnone.
  unfold singleFingerTouch, handleCanvasTouchEnd. rewrite Hp. cbn [Nat.ltb Nat.leb].
  rewrite (proj2 Hnone eq_refl), Ht, Hh, Hhit, Ha, Hip.
  destruct (Qltb (t1 - t0) TAP_MAX_DURATION) eqn:E; [reflexivity|].
  apply Qltb_false in E. exfalso. lra.
Qed.

Lemma singleFingerTouch_tap_witness :
  let layout := mkLayout 1 (mkPoint 0 0) 100 100 in
  let st := mkTouchState None None None (mkView 1 (mkPoint 0 0)) calibrationStart in
  app (singleFingerTouch (fun a b => Qabs a + Qabs b) layout None st (mkPoint 30 40) 0
         [mkPoint 31 41] 120 "t") =
  addPointAtImageCoords calibrationStart "t"
    (getImagePointFromScreen layout (mkView 1 (mkPoint 0 0)) (mkPoint 30 40)).
Proof.
  apply (singleFingerTouch_tap (fun a b => Qabs a + Qabs b) (mkLayout 1 (mkPoint 0 0) 100 100)
           None (mkTouchState None None None (mkView 1 (mkPoint 0 0)) calibrationStart)
           (mkPoint 30 40) 0 [mkPoint 31 41] 120 "t").
  - vm_compute. reflexivity.
  - constructor; [vm_compute; discriminate|constructor].
  - vm_compute. reflexivity.
Defined.

(** A one-finger touch that went down on an existing point, or moved more
    than [DRAG_THRESHOLD] pixels, or lasted [TAP_MAX_DURATION] milliseconds
    or more, adds nothing: it leaves the page state as it was, or commits a
    drag of the point it went down on, from the image point under the
    finger at touchstart. *)
Theorem singleFingerTouch_no_add (hypot : Q -> Q -> Q) (layout : Layout) (image : option Image)
  (st : TouchState) (sp : Point) (t0 : Q) (moves : list Point) (t1 : Q) (uuid : string)
  (Hnot : hitTestPoints layout (view st) (offsideLines (app st))
            (points (calibration (app st))) sp <> None \/
          Exists (fun m => DRAG_THRESHOLD * DRAG_THRESHOLD < dist2 m sp) moves \/
          TAP_MAX_DURATION <= t1 - t0) :
  let result := app (singleFingerTouch hypot layout image st sp t0 moves t1 uuid) in
  result = app st \/
  exists src d,
    hitTestPoints layout (view st) (offsideLines (app st)) (points (calibration (app st))) sp =
      Some src /\
    source d = src /\ originalPoint d = getImagePointFromScreen layout (view st) sp /\
    result = commitDrag (app st) d.
Proof.
  destruct (touchInv_moves hypot layout image sp _ _ t0 _ _ moves true _
              (touchInv_start hypot layout st sp t0))
    as (p & Hp & Hsp & Hip & Hh & Ht & Ha & Hz & Hnone & Hdrag & Htap).
  cbv zeta. unfold singleFingerTouch, handleCanvasTouchEnd. rewrite Hp. cbn [Nat.ltb Nat.leb].
  set (st' := fold_left _ moves _) in *.
  destruct (gesture p) eqn:G.
  - (* "none": every move stayed within the threshold *)
    assert (Hw := proj1 Hnone eq_refl). cbn [andb] in Hw.
    apply forallb_within in Hw.
    rewrite Ht, Hh, Ha, Hip. cbn [app].
    destruct (Qltb (t1 - t0) TAP_MAX_DURATION) eqn:E; [|left; reflexivity].
    apply Qltb_true in E.
    destruct (hitTestPoints _ _ _ _ _) eqn:Hhit; [left; reflexivity|].
    exfalso. destruct Hnot as [Hn | [Hex | Hslow]].
    + exact (Hn eq_refl).
    + rewrite Exists_exists in Hex. destruct Hex as (m & Hm & Hd).
      rewrite Forall_forall in Hw. specialize (Hw m Hm). lra.
    + lra.
  - exfalso. exact (Htap eq_refl).
  - (* "drag" *)
    destruct (Hdrag eq_refl) as (src & d & Hsrc & Had & Hsd & Hod).
    rewrite Had. cbn [app]. right. exists src, d.
    repeat split; [exact Hsrc|exact Hsd|rewrite Hod; reflexivity|].
    rewrite Ha. reflexivity.
  - left. cbn [app]. exact Ha.
  - left. cbn [app]. exact Ha.
Qed.

Lemma singleFingerTouch_no_add_witness :
  let layout := mkLayout 1 (mkPoint 0 0) 100 100 in
  let st := mkTouchState None None None (mkView 1 (mkPoint 0 0)) calibrationStart in
  let result := app (singleFingerTouch (fun a b => Qabs a + Qabs b) layout None st
                       (mkPoint 30 40) 0 [mkPoint 60 40] 120 "t") in
  result = calibrationStart \/
  exists src d,
    hitTestPoints layout (mkView 1 (mkPoint 0 0)) [] [] (mkPoint 30 40) = Some src /\
    source d = src /\
    originalPoint d = getImagePointFromScreen layout (mkView 1 (mkPoint 0 0)) (mkPoint 30 40) /\
    result = commitDrag calibrationStart d.
Proof.
  apply (singleFingerTouch_no_add (fun a b => Qabs a + Qabs b) (mkLayout 1 (mkPoint 0 0) 100 100)
           None (mkTouchState None None None (mkView 1 (mkPoint 0 0)) calibrationStart)
           (mkPoint 30 40) 0 [mkPoint 60 40] 120 "t").
  right. left. constructor. vm_compute. reflexivity.
Defined.

Lemma pageInv_initial : pageInv initialState.
Proof.
  unfold pageInv; cbn. repeat split; try lia; try congruence.
Qed.

Lemma pageInv_reset (s : AppState) : pageInv (mkState Upload INITIAL_CALIBRATION None [] false)
  /\ pageInv (mkState Calibration INITIAL_CALIBRATION None [] false).
Proof.
  unfold pageInv; cbn. repeat split; try lia; congruence.
Qed.

Lemma pageInv_rays (s : AppState) (ls : list OffsideLine) :
  pageInv s -> (ls <> [] -> offsideLines s <> [] \/ mode s = Offside) ->
  pageInv (setOffsideLines ls s).
Proof. destruct s; unfold pageInv; cbn; intuition. Qed.

Ltac inv_close :=
  unfold pageInv; cbn -[lineIntersection]; repeat split; try congruence; try lia;
  try assumption;
  try match goal with
      | Hrays : _ <> [] -> _ = Offside |- _ <> [] -> _ =>
          let Hne := fresh in intro Hne; specialize (Hrays Hne); congruence
      end;
  try (intros ?v' ?Hv' _; injection Hv' as <-; eauto).

Lemma pageInv_addPoint (s : AppState) (uuid : string) (p : Point) :
  pageInv s -> pageInv (addPointAtImageCoords s uuid p).
Proof.
  destruct s as [m [pts l1 l2] vp rays pe].
  intros (Hlen & Hlines & Hvp & Hmode & Hrays & Hcons).
  cbn [calibration points line1 line2 vanishingPoint mode parallelError offsideLines] in *.
  destruct m.
  - unfold addPointAtImageCoords. inv_close.
  - destruct pts as [|a [|b [|c [|d [|e rest]]]]]; cbn [List.length] in Hlen; try lia;
      cbn in Hlines; injection Hlines as -> ->.
    5: { unfold addPointAtImageCoords. inv_close. }
    all: assert (Hv : vp = None)
           by (destruct vp; [exfalso; specialize (Hvp ltac:(discriminate)); cbn in Hvp; lia|reflexivity]).
    all: subst vp; unfold addPointAtImageCoords; cbn -[lineIntersection].
    4: destruct (lineIntersection (mkLine a b) (mkLine c p)) as [v|] eqn:Hi.
    all: inv_close.
  - destruct vp; unfold addPointAtImageCoords; cbn -[lineIntersection].
    + apply pageInv_rays; [inv_close|]. intros _. right. reflexivity.
    + inv_close.
Qed.

Lemma pageInv_commitDrag (s : AppState) (d : DragState) :
  pageInv s -> pageInv (commitDrag s d).
Proof.
  intros Hinv. unfold commitDrag. destruct (source d) as [i|lid].
  2: { apply pageInv_rays; [exact Hinv|]. intros H. left. intros E. apply H.
       rewrite E. reflexivity. }
  destruct s as [m [pts l1 l2] vp rays pe].
  destruct Hinv as (Hlen & Hlines & Hvp & Hmode & Hrays & Hcons).
  cbn [calibration points line1 line2 vanishingPoint mode parallelError offsideLines] in *.
  assert (Hl := set_index_length pts i (currentPoint d)).
  remember (set_index pts i (currentPoint d)) as np eqn:Hnp. clear Hnp.
  destruct pts as [|a [|b [|c [|e [|f rest]]]]]; cbn [List.length] in Hlen; try lia;
    cbn in Hlines; injection Hlines as -> ->;
    destruct np as [|a' [|b' [|c' [|e' [|f' rest']]]]]; cbn [List.length] in Hl; try lia.
  5: { cbn -[lineIntersection].
       destruct (lineIntersection (mkLine a' b') (mkLine c' e')) as [v|] eqn:Hi; inv_close. }
  all: assert (Hv : vp = None)
         by (destruct vp; [exfalso; specialize (Hvp ltac:(discriminate)); cbn in Hvp; lia|reflexivity]).
  all: subst vp; cbn -[lineIntersection]; inv_close.
Qed.

Lemma pageInv_step (s : AppState) (e : PageEvent) : pageInv s -> pageInv (pageStep s e).
Proof.
  intros H. destruct e; cbn [pageStep].
  - apply (pageInv_reset s).
  - apply (pageInv_reset s).
  - apply pageInv_rays; [exact H|]. intros Hne. exfalso. apply Hne. reflexivity.
  - apply (pageInv_reset s).
  - apply pageInv_rays; [exact H|]. intros Hne. left. intros E. apply Hne.
    unfold handleDeleteLine. rewrite E. reflexivity.
  - apply pageInv_addPoint. exact H.
  - apply pageInv_commitDrag. exact H.
Qed.

(** Whatever sequence of page handlers and canvas callbacks runs from the
    initial page state, the state keeps: at most four calibration points;
    [line1] and [line2] exactly the lines through points 0-1 and 2-3 (null
    while those points are missing); a vanishing point only with all four
    points; ray-drawing mode only with a vanishing point; rays only in
    ray-drawing mode; and, while no
    parallel error is flagged, the vanishing point equal to the
    intersection of [line1] and [line2]. *)
Theorem page_state_invariant (es : list PageEvent) (s : AppState)
  (Hrun : runPage initialState es = Some s) : pageInv s.
Proof.
  assert (H0 := pageInv_initial). revert Hrun H0. generalize initialState as s0.
  induction es as [|e rest IH]; intros s0 Hrun H0; cbn [runPage] in Hrun.
  - injection Hrun as <-. exact H0.
  - destruct e;
      try (apply (IH _ Hrun); apply pageInv_step; exact H0).
    destruct (dragInRange s0 drag); [|discriminate Hrun].
    apply (IH _ Hrun). apply pageInv_step. exact H0.
Qed.

Lemma page_state_invariant_witness :
  runPage initialState
    [ImageLoad; AddPoint "u" (mkPoint 0 0); AddPoint "u" (mkPoint 10 10);
     AddPoint "u" (mkPoint 0 10); AddPoint "u" (mkPoint 10 0);
     CommitDrag (mkDrag (SrcCalibration 0) (mkPoint 0 0) (mkPoint 0 2))] =
  Some (commitDrag (addFour (handleImageLoad initialState) "u"
          (mkPoint 0 0) (mkPoint 10 10) (mkPoint 0 10) (mkPoint 10 0))
          (mkDrag (SrcCalibration 0) (mkPoint 0 0) (mkPoint 0 2))) /\
  pageInv (commitDrag (addFour (handleImageLoad initialState) "u"
          (mkPoint 0 0) (mkPoint 10 10) (mkPoint 0 10) (mkPoint 10 0))
          (mkDrag (SrcCalibration 0) (mkPoint 0 0) (mkPoint 0 2))).
Proof.
  split; [reflexivity|].
  apply (page_state_invariant
    [ImageLoad; AddPoint "u" (mkPoint 0 0); AddPoint "u" (mkPoint 10 10);
     AddPoint "u" (mkPoint 0 10); AddPoint "u" (mkPoint 10 0);
     CommitDrag (mkDrag (SrcCalibration 0) (mkPoint 0 0) (mkPoint 0 2))]).
  reflexivity.
Defined.

Lemma eps_lt_nonzero (q : Q) : eps < Qabs q -> ~ q == 0.
Proof. intros H E. rewrite E in H. cbv in H. discriminate H. Qed.

Lemma boundaryCrossings_on (pa pb : Point) (w h : Q) (q : Point) :
  In q (boundaryCrossings pa pb w h) ->
  on_line (mkLine pa pb) q /\ onRectEdgeLine w h q.
Proof.
  unfold boundaryCrossings, on_line, onRectEdgeLine. cbn [p1 p2].
  destruct pa as [x1 y1], pb as [x2 y2]. cbn [x y].
  rewrite !in_app_iff.
  destruct (Qltb eps (Qabs (x2 - x1))) eqn:Ex;
    [apply Qltb_true, eps_lt_nonzero in Ex|].
  all: destruct (Qltb eps (Qabs (y2 - y1))) eqn:Ey;
    [apply Qltb_true, eps_lt_nonzero in Ey|].
  all: repeat match goal with
       | |- context [if ?b then _ else _] => destruct b
       end.
  all: cbn; intros H; repeat destruct H as [H|H]; try contradiction; subst q; cbn [x y].
  all: split; [field; assumption|].
  all: first [left; reflexivity | right; left; reflexivity
             | right; right; left; reflexivity | right; right; right; reflexivity].
Qed.

Lemma dedupe_unfold (l : list Point) : dedupe l = fold_left dedupeStep l [].
Proof. reflexivity. Qed.

Lemma dedupe_in (l acc : list Point) (u : Point) :
  In u (fold_left dedupeStep l acc) -> In u acc \/ In u l.
Proof.
  revert acc. induction l as [|pt rest IH]; intros acc H; cbn in H.
  - left. exact H.
  - destruct (IH _ H) as [Hacc|Hrest]; [|right; right; exact Hrest].
    unfold dedupeStep in Hacc. destruct (existsb _ acc); [left; exact Hacc|].
    apply in_app_iff in Hacc. destruct Hacc as [Hacc|[<-|[]]]; [left; exact Hacc|].
    right. left. reflexivity.
Qed.

Lemma dedupe_first_two (l acc : list Point) :
  firstTwoApart acc -> firstTwoApart (fold_left dedupeStep l acc).
Proof.
  revert acc. induction l as [|pt rest IH]; intros acc H; cbn; [exact H|].
  apply IH. unfold dedupeStep.
  destruct (existsb (fun u => nearDuplicate u pt) acc) eqn:E; [exact H|].
  destruct acc as [|u0 [|u1 more]]; cbn in *; [exact I| |exact H].
  destruct (nearDuplicate u0 pt); [discriminate E|reflexivity].
Qed.

(** Both points [extendLineToBounds] returns lie on the line through [p1]
    and [p2]; unless it returned [p1], [p2] themselves (degenerate input) or
    the far fallback, they lie on the lines of the rectangle's edges and are
    not near-duplicates of each other. *)
Theorem extendLineToBounds_endpoints (pa pb : Point) (w h : Q) :
  let r := extendLineToBounds pa pb w h in
  on_line (mkLine pa pb) (fst r) /\ on_line (mkLine pa pb) (snd r) /\
  (r = (pa, pb) \/ r = farExtension pa pb \/
   (onRectEdgeLine w h (fst r) /\ onRectEdgeLine w h (snd r) /\
    nearDuplicate (fst r) (snd r) = false)).
Proof.
  cbv zeta. unfold extendLineToBounds.
  destruct (Qltb (Qabs (x pb - x pa)) eps && Qltb (Qabs (y pb - y pa)) eps).
  - unfold on_line; cbn. split; [ring|]. split; [ring|]. left; reflexivity.
  - rewrite dedupe_unfold.
    assert (Hin := fun u => dedupe_in (boundaryCrossings pa pb w h) [] u).
    assert (H2 := dedupe_first_two (boundaryCrossings pa pb w h) [] I).
    destruct (fold_left dedupeStep (boundaryCrossings pa pb w h) []) as [|u0 [|u1 rest]].
    1,2: unfold on_line, farExtension; cbn; split; [ring|]; split; [ring|];
         right; left; reflexivity.
    assert (B0 : In u0 (boundaryCrossings pa pb w h)).
    { destruct (Hin u0) as [[]|H]; [left; reflexivity|exact H]. }
    assert (B1 : In u1 (boundaryCrossings pa pb w h)).
    { destruct (Hin u1) as [[]|H]; [right; left; reflexivity|exact H]. }
    apply boundaryCrossings_on in B0, B1. cbn [fst snd].
    split; [apply B0|]. split; [apply B1|]. right; right.
    split; [apply B0|]. split; [apply B1|exact H2].
Qed.

(** [lineIntersection] does not depend on the order of its arguments: both
    orders give null, or both give the same point. *)
Theorem lineIntersection_symmetric (a b : Line) :
  match lineIntersection a b, lineIntersection b a with
  | Some u, Some v => peq u v
  | None, None => True
  | _, _ => False
  end.
Proof.
  destruct a as [[x1 y1] [x2 y2]], b as [[x3 y3] [x4 y4]].
  unfold lineIntersection; cbn [p1 p2 x y].
  assert (Hd : (x3 - x4) * (y1 - y2) - (y3 - y4) * (x1 - x2) ==
               - ((x1 - x2) * (y3 - y4) - (y1 - y2) * (x3 - x4))) by ring.
  assert (Ha : Qabs ((x3 - x4) * (y1 - y2) - (y3 - y4) * (x1 - x2)) ==
               Qabs ((x1 - x2) * (y3 - y4) - (y1 - y2) * (x3 - x4))).
  { rewrite (Qabs_wd _ _ Hd). apply Qabs_opp. }
  destruct (Qltb (Qabs ((x1 - x2) * (y3 - y4) - (y1 - y2) * (x3 - x4))) eps) eqn:E;
    destruct (Qltb (Qabs ((x3 - x4) * (y1 - y2) - (y3 - y4) * (x1 - x2))) eps) eqn:E';
    try exact I; apply Qltb_true in E || apply Qltb_false in E;
    apply Qltb_true in E' || apply Qltb_false in E'; try lra.
  assert (Hnz : ~ (x1 - x2) * (y3 - y4) - (y1 - y2) * (x3 - x4) == 0).
  { intro Z. rewrite (Qabs_wd _ _ Z) in E. cbv in E. apply E. reflexivity. }
  assert (Hnz' : ~ (x3 - x4) * (y1 - y2) - (y3 - y4) * (x1 - x2) == 0).
  { intro Z. apply Hnz. rewrite Hd in Z. lra. }
  unfold peq; cbn [x y]. split; field; split; assumption.
Qed.

(** After [clampPan] (with an image loaded and nonnegative sizes, scale and
    zoom), the image as drawn by the effective transform overlaps the
    middle band of the canvas on both axes: its left/top edge is at most
    80% of the canvas size and its right/bottom edge at least 20%. *)
Theorem clampPan_keeps_image_visible (layout : Layout) (img : Image) (p : Point) (z : Q)
  (Hw : 0 <= width img) (Hh : 0 <= height img) (Hs : 0 <= scale layout) (Hz : 0 <= z)
  (Hcw : 0 <= canvasWidth layout) (Hch : 0 <= canvasHeight layout) :
  let E := getEffectiveTransform layout (mkView z (clampPan layout (Some img) p z)) in
  x (snd E) <= (8 # 10) * canvasWidth layout /\
  (2 # 10) * canvasWidth layout <= x (snd E) + width img * fst E /\
  y (snd E) <= (8 # 10) * canvasHeight layout /\
  (2 # 10) * canvasHeight layout <= y (snd E) + height img * fst E.
Proof.
  destruct layout as [s [ox oy] cw ch], img as [iw ih], p as [px py].
  cbn in Hw, Hh, Hs, Hcw, Hch.
  assert (HW : 0 <= iw * s * z) by (repeat apply Qmult_le_0_compat; assumption).
  assert (HH : 0 <= ih * s * z) by (repeat apply Qmult_le_0_compat; assumption).
  unfold getEffectiveTransform, effOffset, clampPan, js_min, js_max; cbn.
  unfold Qdiv. rewrite Qinv_2.
  assert (Ew : iw * (s * z) == iw * s * z) by ring.
  assert (Eh : ih * (s * z) == ih * s * z) by ring.
  case_Qltb; lra.
Qed.

Lemma clampPan_keeps_image_visible_witness :
  let layout := mkLayout 2 (mkPoint 0 0) 100 80 in
  let img := mkImage 50 40 in
  let E := getEffectiveTransform layout
             (mkView 3 (clampPan layout (Some img) (mkPoint 1000 (-1000)) 3)) in
  x (snd E) <= (8 # 10) * canvasWidth layout /\
  (2 # 10) * canvasWidth layout <= x (snd E) + width img * fst E /\
  y (snd E) <= (8 # 10) * canvasHeight layout /\
  (2 # 10) * canvasHeight layout <= y (snd E) + height img * fst E.
Proof.
  apply (clampPan_keeps_image_visible (mkLayout 2 (mkPoint 0 0) 100 80) (mkImage 50 40)
           (mkPoint 1000 (-1000)) 3); vm_compute; discriminate.
Defined.

(** [computeLayout] fits the image into the container: with positive
    container and image sizes the scale is positive, the scaled image fits
    on both axes and fills at least one of them, and it is centred with
    nonnegative offsets. *)
Theorem computeLayout_fit (cw ch : Q) (img : Image)
  (Hcw : 0 < cw) (Hch : 0 < ch) (Hw : 0 < width img) (Hh : 0 < height img) :
  let L := computeLayout cw ch img in
  0 < scale L /\
  width img * scale L <= cw /\ height img * scale L <= ch /\
  (width img * scale L == cw \/ height img * scale L == ch) /\
  0 <= x (offset L) /\ 0 <= y (offset L) /\
  2 * x (offset L) + width img * scale L == cw /\
  2 * y (offset L) + height img * scale L == ch.
Proof.
  destruct img as [w h]. cbn in Hw, Hh. unfold computeLayout, js_min. cbn [width height].
  set (sx := cw / w). set (sy := ch / h).
  assert (Ex : w * sx == cw) by (unfold sx; field; lra).
  assert (Ey : h * sy == ch) by (unfold sy; field; lra).
  assert (Px : 0 < sx) by (unfold sx, Qdiv; apply Qmult_lt_0_compat; [exact Hcw|apply Qinv_lt_0_compat; exact Hw]).
  assert (Py : 0 < sy) by (unfold sy, Qdiv; apply Qmult_lt_0_compat; [exact Hch|apply Qinv_lt_0_compat; exact Hh]).
  destruct (Qltb sy sx) eqn:E; [apply Qltb_true in E|apply Qltb_false in E]; cbn [scale offset x y].
  - assert (Hle : sy * w <= sx * w) by (apply Qmult_le_compat_r; lra).
    unfold Qdiv. rewrite Qinv_2. repeat split; lra.
  - assert (Hle : sx * h <= sy * h) by (apply Qmult_le_compat_r; lra).
    unfold Qdiv. rewrite Qinv_2. repeat split; lra.
Qed.

Lemma computeLayout_fit_witness :
  let L := computeLayout 800 600 (mkImage 1920 1080) in
  0 < scale L /\
  width (mkImage 1920 1080) * scale L <= 800 /\ height (mkImage 1920 1080) * scale L <= 600 /\
  (width (mkImage 1920 1080) * scale L == 800 \/ height (mkImage 1920 1080) * scale L == 600) /\
  0 <= x (offset L) /\ 0 <= y (offset L) /\
  2 * x (offset L) + width (mkImage 1920 1080) * scale L == 800 /\
  2 * y (offset L) + height (mkImage 1920 1080) * scale L == 600.
Proof.
  apply computeLayout_fit; reflexivity.
Defined.

Lemma checkLines_lineJson (ls : list OffsideLine) : checkLines (map lineJson ls) = Ret true.
Proof. induction ls as [|l rest IH]; [reflexivity|]. cbn. exact IH. Qed.

Lemma forallb_pointJson (pts : list Point) :
  forallb (fun p => isValidPoint (Some p)) (map pointJson pts) = true.
Proof. induction pts as [|p rest IH]; [reflexivity|]. cbn. exact IH. Qed.

(** The metadata [createShare] sends always passes the server's
    [isValidMetadata] without throwing when the calibration has exactly
    four points, and fails it (answered 400) otherwise. *)
Theorem createShare_metadata_valid (calibration : CalibrationState) (vp : Point)
  (offsideLines : list OffsideLine) (imageWidth imageHeight scale : Q) :
  isValidMetadata (shareMetadata calibration vp offsideLines imageWidth imageHeight scale) =
  Ret (Nat.eqb (List.length (points calibration)) 4).
Proof.
  unfold isValidMetadata, calibrationOk, shareMetadata. cbn -[checkLines forallb map].
  rewrite !length_map, forallb_pointJson, andb_true_r.
  destruct (Nat.eqb (List.length (points calibration)) 4); cbn -[checkLines map];
    [|reflexivity].
  rewrite checkLines_lineJson. reflexivity.
Qed.

Lemma checkLines_throw_iff (lines : list json) :
  checkLines lines = Throw <->
  exists good rest, lines = good ++ JNull :: rest /\ forallb lineValid good = true.
Proof.
  induction lines as [|l ls IH].
  - split; [discriminate|]. intros (good & rest & Heq & _).
    destruct good; discriminate.
  - split.
    + destruct l; cbn -[lineValid];
        [intros _; exists [], ls; split; reflexivity| ..];
        destruct (lineValid _) eqn:Hv; cbn; try discriminate;
        intros Ht; apply IH in Ht; destruct Ht as (good & rest & -> & Hg);
        eexists (_ :: good), rest; split; [reflexivity|]; cbn -[lineValid];
        rewrite Hv; exact Hg.
    + intros (good & rest & Heq & Hg). destruct good as [|g good]; cbn in Heq.
      * injection Heq as -> ->. reflexivity.
      * injection Heq as -> Heq. cbn in Hg. apply andb_prop in Hg as [Hv Hg].
        assert (Ht : checkLines ls = Throw) by (apply IH; eauto).
        destruct g; cbn -[lineValid]; [reflexivity| ..]; rewrite Hv; exact Ht.
Qed.

Lemma isValidMetadata_throw_iff (data : json) :
  isValidMetadata data = Throw <->
  isObject (Some data) = true /\ calibrationOk (get (Some data) "calibration") = true /\
  isValidPoint (get (Some data) "vanishingPoint") = true /\
  exists good rest, get (Some data) "offsideLines" = Some (JArr (good ++ JNull :: rest)) /\
                    forallb lineValid good = true.
Proof.
  unfold isValidMetadata.
  destruct (isObject (Some data)); cbn [negb]; [|split; [discriminate|intros (H & _); discriminate]].
  destruct (calibrationOk _); cbn [negb]; [|split; [discriminate|intros (_ & H & _); discriminate]].
  destruct (isValidPoint _); cbn [negb]; [|split; [discriminate|intros (_ & _ & H & _); discriminate]].
  destruct (get (Some data) "offsideLines") as [[| | | | lines |]|] eqn:Hl;
    try (split; [discriminate|intros (_ & _ & _ & good & rest & H & _); discriminate]).
  split.
  - intros Ht.
    assert (Hc : checkLines lines = Throw).
    { destruct (checkLines lines) as [[|]|]; [destruct (_ || _)| |]; easy. }
    apply checkLines_throw_iff in Hc as (good & rest & -> & Hg).
    split; [reflexivity|]. split; [reflexivity|]. split; [reflexivity|].
    exists good, rest. split; [reflexivity|exact Hg].
  - intros (_ & _ & _ & good & rest & Heq & Hg).
    injection Heq as ->.
    assert (Ht : checkLines (good ++ JNull :: rest) = Throw)
      by (apply checkLines_throw_iff; eauto).
    rewrite Ht. reflexivity.
Qed.

(** A 500 "Failed to create share" from [POST], for an image within the size
    limit and metadata that parses, happens exactly when the metadata is
    valid but an upload fails, or when the metadata passes the calibration
    and vanishing-point checks and its [offsideLines] array holds a [null]
    entry with only valid lines before it (reading [line.id] of the [null]
    throws); no other malformed metadata gets a 500. *)
Theorem POST_server_error_iff (parse : string -> option json) (size : Q)
  (m id : string) (uploadsOk : bool) (metadata : json)
  (Hsize : size <= MAX_IMAGE_SIZE) (Hm : m <> EmptyString) (Hparse : parse m = Some metadata) :
  POST parse (Some size) (Some m) id uploadsOk = ServerError "Failed to create share"%string <->
  (isValidMetadata metadata = Ret true /\ uploadsOk = false) \/
  (isObject (Some metadata) = true /\ calibrationOk (get (Some metadata) "calibration") = true /\
   isValidPoint (get (Some metadata) "vanishingPoint") = true /\
   exists good rest,
     get (Some metadata) "offsideLines" = Some (JArr (good ++ JNull :: rest)) /\
     forallb lineValid good = true).
Proof.
  rewrite <- isValidMetadata_throw_iff.
  unfold POST.
  apply String.eqb_neq in Hm. rewrite Hm.
  rewrite (proj2 (Qltb_false _ _) Hsize), Hparse.
  destruct (isValidMetadata metadata) as [[|]|]; destruct uploadsOk;
    split; try discriminate; try tauto; intros [[H1 H2]|H]; discriminate.
Qed.

(** [POST] stores a share and answers its id and [/share/<id>] only for an
    image within the 1MB limit, a non-empty metadata string that parses, and
    metadata that [isValidMetadata] accepts. *)
Theorem POST_ok_only_valid (parse : string -> option json) (image : option Q)
  (metadataStr : option string) (id : string) (uploadsOk : bool) (rid url : string)
  (Hok : POST parse image metadataStr id uploadsOk = OkResponse rid url) :
  exists size m metadata,
    image = Some size /\ size <= MAX_IMAGE_SIZE /\ metadataStr = Some m /\ m <> EmptyString /\
    parse m = Some metadata /\ isValidMetadata metadata = Ret true /\
    uploadsOk = true /\ rid = id /\ url = ("/share/" ++ id)%string.
Proof.
  unfold POST in Hok.
  destruct image as [size|]; [|destruct metadataStr; discriminate].
  destruct metadataStr as [m|]; [|discriminate].
  destruct (String.eqb m EmptyString) eqn:He; [discriminate|].
  destruct (Qltb MAX_IMAGE_SIZE size) eqn:Hs; [discriminate|].
  destruct (parse m) as [metadata|] eqn:Hp; [|discriminate].
  destruct (isValidMetadata metadata) as [[|]|] eqn:Hv; try discriminate.
  destruct uploadsOk; [|discriminate].
  injection Hok as <- <-.
  exists size, m, metadata.
  apply Qltb_false in Hs. apply String.eqb_neq in He.
  repeat split; auto.
Qed.

Lemma POST_server_error_iff_witness :
  900000 <= MAX_IMAGE_SIZE /\ "m"%string <> EmptyString /\
  (POST (fun _ => Some nullLineMetadata) (Some 900000) (Some "m"%string) "abc" true =
     ServerError "Failed to create share" <->
   (isValidMetadata nullLineMetadata = Ret true /\ true = false) \/
   (isObject (Some nullLineMetadata) = true /\
    calibrationOk (get (Some nullLineMetadata) "calibration") = true /\
    isValidPoint (get (Some nullLineMetadata) "vanishingPoint") = true /\
    exists good rest,
      get (Some nullLineMetadata) "offsideLines" = Some (JArr (good ++ JNull :: rest)) /\
      forallb lineValid good = true)).
Proof.
  split; [vm_compute; discriminate|]. split; [discriminate|].
  apply (POST_server_error_iff (fun _ => Some nullLineMetadata) 900000 "m" "abc" true
           nullLineMetadata).
  - vm_compute. discriminate.
  - discriminate.
  - reflexivity.
Defined.

Lemma POST_ok_only_valid_witness :
  POST (fun _ => Some sampleShareMetadata) (Some 900000) (Some "m"%string) "abc" true =
    OkResponse "abc" "/share/abc" /\
  exists size m metadata,
    Some 900000 = Some size /\ size <= MAX_IMAGE_SIZE /\ Some "m"%string = Some m /\
    m <> EmptyString /\ (fun _ => Some sampleShareMetadata) m = Some metadata /\
    isValidMetadata metadata = Ret true /\ true = true /\ "abc"%string = "abc"%string /\
    "/share/abc"%string = ("/share/" ++ "abc")%string.
Proof.
  split; [vm_compute; reflexivity|].
  apply (POST_ok_only_valid (fun _ => Some sampleShareMetadata) (Some 900000) (Some "m"%string)
           "abc" true "abc" "/share/abc").
  vm_compute. reflexivity.
Defined.

Lemma round_le_int (q : Q) (z : Z) : q <= inject_Z z -> round q <= inject_Z z.
Proof.
  intros Hq. unfold round.
  assert (H1 := Qfloor_le (q + (1 # 2))).
  assert (Hlt : (Qfloor (q + (1 # 2)) < z + 1)%Z).
  { rewrite Zlt_Qlt, inject_Z_plus. change (inject_Z 1) with 1. lra. }
  rewrite <- Zle_Qle. lia.
Qed.

Lemma round_ge_2 (q : Q) : 3 # 2 <= q -> 2 <= round q.
Proof.
  intros Hq. unfold round.
  assert (H1 := Qlt_floor (q + (1 # 2))).
  assert (Hgt : (1 < Qfloor (q + (1 # 2)))%Z).
  { rewrite Zlt_Qlt. rewrite inject_Z_plus in H1. change (inject_Z 1) with 1 in *. lra. }
  change 2 with (inject_Z 2). rewrite <- Zle_Qle. lia.
Qed.

Lemma compressLoop_spec toBlob (w h : Q) (Hw : 0 < w) (Hh : 0 < h) :
  forall fuel (md : Z) quality blobSize scale,
  2 <= inject_Z md <= 2048 ->
  compressLoop toBlob w h fuel (inject_Z md) quality = Compressed blobSize scale ->
  blobSize <= MAX_SIZE_BYTES /\ 0 < scale <= 1 /\
  round (w * scale) <= 2048 /\ round (h * scale) <= 2048.
Proof.
  induction fuel as [|fuel IH]; intros md quality blobSize scale Hmd Hr; [discriminate|].
  cbn [compressLoop] in Hr.
  destruct (Qltb (inject_Z md) w || Qltb (inject_Z md) h) eqn:Hbig.
  - set (sc := inject_Z md / js_max w h) in Hr.
    destruct (toBlob _ _ quality) as [size|]; [|discriminate].
    destruct (Qle_bool size MAX_SIZE_BYTES) eqn:Hfit.
    + injection Hr as <- <-.
      apply Qle_bool_imp_le in Hfit.
      assert (Hm : 0 < js_max w h /\ w <= js_max w h /\ h <= js_max w h /\
                   inject_Z md < js_max w h).
      { unfold js_max. apply orb_true_iff in Hbig.
        destruct Hbig as [Hb|Hb]; apply Qltb_true in Hb; case_Qltb; lra. }
      destruct Hm as (Hm0 & Hmw & Hmh & Hmd').
      assert (Hsc : 0 < sc /\ sc <= 1).
      { unfold sc. split.
        - apply Qlt_shift_div_l; lra.
        - apply Qle_shift_div_r; lra. }
      assert (Hws : w * sc <= inject_Z md).
      { unfold sc, Qdiv. rewrite Qmult_assoc.
        apply (Qle_trans _ (js_max w h * inject_Z md * / js_max w h)).
        - apply Qmult_le_compat_r; [|apply Qlt_le_weak, Qinv_lt_0_compat; exact Hm0].
          apply Qmult_le_compat_r; lra.
        - rewrite (Qmult_comm (js_max w h)), <- Qmult_assoc, Qmult_inv_r; [|lra].
          rewrite Qmult_1_r. apply Qle_refl. }
      assert (Hhs : h * sc <= inject_Z md).
      { unfold sc, Qdiv. rewrite Qmult_assoc.
        apply (Qle_trans _ (js_max w h * inject_Z md * / js_max w h)).
        - apply Qmult_le_compat_r; [|apply Qlt_le_weak, Qinv_lt_0_compat; exact Hm0].
          apply Qmult_le_compat_r; lra.
        - rewrite (Qmult_comm (js_max w h)), <- Qmult_assoc, Qmult_inv_r; [|lra].
          rewrite Qmult_1_r. apply Qle_refl. }
      split; [exact Hfit|]. split; [exact Hsc|].
      split; apply (round_le_int _ 2048); change (inject_Z 2048) with 2048; lra.
    + destruct (Qltb MIN_QUALITY quality).
      * exact (IH md _ _ _ Hmd Hr).
      * refine (IH _ _ _ _ _ Hr). split.
        -- apply round_ge_2. unfold DIMENSION_STEP. lra.
        -- apply round_le_int. unfold DIMENSION_STEP. change (inject_Z 2048) with 2048. lra.
  - apply orb_false_iff in Hbig as [Hbw Hbh].
    apply Qltb_false in Hbw. apply Qltb_false in Hbh.
    destruct (toBlob w h quality) as [size|]; [|discriminate].
    destruct (Qle_bool size MAX_SIZE_BYTES) eqn:Hfit.
    + injection Hr as <- <-. apply Qle_bool_imp_le in Hfit.
      split; [exact Hfit|]. split; [lra|].
      split; apply (round_le_int _ 2048); change (inject_Z 2048) with 2048; lra.
    + destruct (Qltb MIN_QUALITY quality).
      * exact (IH md _ _ _ Hmd Hr).
      * refine (IH _ _ _ _ _ Hr). split.
        -- apply round_ge_2. unfold DIMENSION_STEP. lra.
        -- apply round_le_int. unfold DIMENSION_STEP. change (inject_Z 2048) with 2048. lra.
Qed.

(** When [compressImage] resolves, the blob fits the 1MB limit and the scale
    is in (0, 1]: the image is never enlarged, and its scaled size
    [Math.round(image.width * scale)] x [Math.round(image.height * scale)]
    (what [createShare] sends as [imageWidth] and [imageHeight]) is at most
    2048 on each side. *)
Theorem compressImage_result (toBlob : Q -> Q -> Q -> option Q) (imageWidth imageHeight : Q)
  (fuel : nat) (blobSize scale : Q)
  (Hw : 0 < imageWidth) (Hh : 0 < imageHeight)
  (Hr : compressImage toBlob imageWidth imageHeight fuel = Compressed blobSize scale) :
  blobSize <= MAX_SIZE_BYTES /\ 0 < scale <= 1 /\
  round (imageWidth * scale) <= 2048 /\ round (imageHeight * scale) <= 2048.
Proof.
  apply (compressLoop_spec toBlob imageWidth imageHeight Hw Hh fuel 2048 INITIAL_QUALITY);
    [|exact Hr].
  change (inject_Z 2048) with 2048. lra.
Qed.

Lemma compressImage_result_witness :
  0 < 4000 /\ 0 < 3000 /\
  compressImage (fun w h q => Some (Qred (w * h * q / 2))) 4000 3000 10 =
    Compressed (4718592 # 5) (2048 / 4000) /\
  (4718592 # 5) <= MAX_SIZE_BYTES /\ 0 < 2048 / 4000 <= 1 /\
  round (4000 * (2048 / 4000)) <= 2048 /\ round (3000 * (2048 / 4000)) <= 2048.
Proof.
  split; [reflexivity|]. split; [reflexivity|].
  split; [vm_compute; reflexivity|].
  apply (compressImage_result (fun w h q => Some (Qred (w * h * q / 2))) 4000 3000 10).
  - reflexivity.
  - reflexivity.
  - vm_compute. reflexivity.
Defined.
